(** * ELF Mini-RTS agents (rts/game_MC/ai.h): a shallow embedding

    The development follows the header top-down:
    - [Float32]      IEEE binary32 arithmetic as used by [int *= float];
    - [Cxx]          outcomes of C++ calls (return, exception, undefined
                     behaviour), [std::stoi], [std::stof], [std::map];
    - [Elf]          the agent base contract [elf::AI_T] and the circular
                     queue behind [TrainedAI::_recent_states];
    - [MixedAI]      the curriculum agent, member for member.

    Integers are [Z] with the 32-bit range written out where the code can leave
    it; [float] is [spec_float] at precision 24. *)

From Stdlib Require Import ZArith List String Ascii Bool Lia.
From Stdlib Require Import Floats.SpecFloat.
Import ListNotations.

Local Open Scope Z_scope.

(* ===================================================================== *)
(** ** Outcomes of a C++ call *)
(* ===================================================================== *)

Module Cxx.

(** The two exceptions [std::stoi] and [std::stof] can throw. *)
Inductive exception := invalid_argument | out_of_range.

(** Operations without defined behaviour that the header can reach. *)
Inductive fault :=
| null_dereference        (* [->] on an empty [std::unique_ptr] *)
| division_by_zero        (* [%] with a zero right operand *)
| signed_overflow         (* [int + 1] leaving the range of [int] *)
| float_to_int_overflow.  (* a float converted to [int] outside its range *)

Inductive result (A : Type) :=
| Ok (a : A)
| Raise (e : exception)
| Crash (f : fault).

Arguments Ok {A} a.
Arguments Raise {A} e.
Arguments Crash {A} f.

Definition bind {A B} (c : result A) (k : A -> result B) : result B :=
  match c with
  | Ok a => k a
  | Raise e => Raise e
  | Crash f => Crash f
  end.

Definition returns {A} (c : result A) : bool :=
  match c with Ok _ => true | _ => false end.

(** What the caller receives from a call that also updates an object. *)
Definition returned {A B} (c : result (A * B)) : result A :=
  match c with
  | Ok (a, _) => Ok a
  | Raise e => Raise e
  | Crash f => Crash f
  end.

(** [int]: 32 bits, two's complement. *)
Definition INT_MIN : Z := - 2 ^ 31.
Definition INT_MAX : Z := 2 ^ 31 - 1.

Definition in_int (n : Z) : bool := (INT_MIN <=? n) && (n <=? INT_MAX).

(** Conversion of an out-of-range integer to [int] keeps the low 32 bits. *)
Definition wrap_int (n : Z) : Z := (n + 2 ^ 31) mod 2 ^ 32 - 2 ^ 31.

(** [std::mt19937::result_type] is [uint_fast32_t]; with glibc on a 64-bit
    target this is [unsigned long], 64 bits wide. *)
Definition uint_fast32_bits : Z := 64.

(** Conversion of an [int] operand to [uint_fast32_t] (usual arithmetic
    conversions of [unsigned % int]). *)
Definition to_uint_fast32 (n : Z) : Z := n mod 2 ^ uint_fast32_bits.

End Cxx.

Import Cxx.

Declare Scope cxx_scope.
Delimit Scope cxx_scope with cxx.
Notation "x <- c ;; k" := (Cxx.bind c (fun x => k))
  (at level 61, c at next level, right associativity) : cxx_scope.
Notation "' pat <- c ;; k" := (Cxx.bind c (fun x => match x with pat => k end))
  (at level 61, pat pattern, c at next level, right associativity) : cxx_scope.

(* ===================================================================== *)
(** ** Single-precision floats *)
(* ===================================================================== *)

Module Float32.

Definition prec : Z := 24.
Definition emax : Z := 128.

Definition float := spec_float.

(** [float(n)] for an [int] [n]: round to nearest, ties to even. *)
Definition of_int (n : Z) : float := binary_normalize prec emax n 0 false.

(** [x * y] in single precision. *)
Definition mul (x y : float) : float := SFmul prec emax x y.

(** The integer part of a finite float, rounded toward zero. *)
Definition trunc (f : float) : option Z :=
  match f with
  | S754_zero _ => Some 0
  | S754_finite s m e =>
      let a := if 0 <=? e then Zpos m * 2 ^ e else Zpos m / 2 ^ (- e) in
      Some (if s then - a else a)
  | S754_infinity _ | S754_nan => None
  end.

(** [int(f)]: truncation; undefined when the integer part does not fit. *)
Definition to_int (f : float) : result Z :=
  match trunc f with
  | Some n => if in_int n then Ok n else Crash float_to_int_overflow
  | None => Crash float_to_int_overflow
  end.

Definition zero : float := S754_zero false.
Definition one : float := of_int 1.
Definition half : float := S754_finite false 8388608 (-24).   (* [0.5f] *)

Definition is_finite (f : float) : bool :=
  match f with
  | S754_zero _ | S754_finite _ _ _ => true
  | _ => false
  end.

Definition valid (f : float) : bool := valid_binary prec emax f.

Definition leb (x y : float) : bool := SFleb x y.
Definition ltb (x y : float) : bool := SFltb x y.

(** The value of a finite float as a fraction [(p, q)], [q > 0]. *)
Definition to_ratio (f : float) : option (Z * Z) :=
  match f with
  | S754_zero _ => Some (0, 1)
  | S754_finite s m e =>
      let n := if s then Zneg m else Zpos m in
      Some (if 0 <=? e then (n * 2 ^ e, 1) else (n, 2 ^ (- e)))
  | S754_infinity _ | S754_nan => None
  end.

End Float32.


(* ===================================================================== *)
(** ** The standard library calls of the header *)
(* ===================================================================== *)

Module Std.

(** [isspace] in the "C" locale. *)
Definition isspace (c : ascii) : bool :=
  let n := Z.of_N (N_of_ascii c) in
  (n =? 32) || ((9 <=? n) && (n <=? 13)).

Definition digit (c : ascii) : option Z :=
  let n := Z.of_N (N_of_ascii c) in
  if (48 <=? n) && (n <=? 57) then Some (n - 48) else None.

Fixpoint skip_spaces (s : string) : string :=
  match s with
  | String c s' => if isspace c then skip_spaces s' else s
  | EmptyString => s
  end.

(** The longest prefix of decimal digits, as a number ([None]: no digit). *)
Fixpoint read_digits (s : string) (acc : option Z) : option Z :=
  match s with
  | String c s' =>
      match digit c with
      | Some d =>
          read_digits s' (Some (10 * match acc with Some a => a | None => 0 end + d))
      | None => acc
      end
  | EmptyString => acc
  end.

(** [std::stoi(s)]: [strtol] in base 10.  Leading white space is skipped,
    one sign is accepted, the digits that follow are converted and the rest
    of the string is ignored.  No digit: [std::invalid_argument]; a value
    outside [int]: [std::out_of_range]. *)
Definition stoi (s : string) : result Z :=
  let s1 := skip_spaces s in
  let '(neg, s2) :=
    match s1 with
    | String "-"%char r => (true, r)
    | String "+"%char r => (false, r)
    | _ => (false, s1)
    end in
  match read_digits s2 None with
  | None => Raise invalid_argument
  | Some a =>
      let v := if neg then - a else a in
      if in_int v then Ok v else Raise out_of_range
  end.

(** [std::map<std::string, std::string>]: the bindings in increasing key
    order, one per key. *)
Definition map := list (string * string).

(** [m.insert(std::make_pair(k, v))]: a key that is present keeps its value. *)
Fixpoint insert (k v : string) (m : map) : map :=
  match m with
  | [] => [(k, v)]
  | (k', v') :: m' =>
      match String.compare k k' with
      | Lt => (k, v) :: m
      | Eq => m
      | Gt => (k', v') :: insert k v m'
      end
  end.

Fixpoint find (k : string) (m : map) : option string :=
  match m with
  | [] => None
  | (k', v') :: m' => if String.eqb k k' then Some v' else find k m'
  end.

End Std.

(* ===================================================================== *)
(** ** engine/cmd_util.h and python_options.h *)
(* ===================================================================== *)

Module CmdLineUtils.

(** Modelled from the spec: [CmdLineUtils::split] (engine/cmd_util.h is not
    among the sources).  "A single delimiter-separated string, fields
    separated by one delimiter": the fields between the occurrences of
    [delim], in order. *)
Fixpoint split (s : string) (delim : ascii) : list string :=
  match s with
  | EmptyString => [EmptyString]
  | String c s' =>
      if Ascii.eqb c delim then EmptyString :: split s' delim
      else
        match split s' delim with
        | item :: items => String c item :: items
        | [] => [String c EmptyString]
        end
  end.

End CmdLineUtils.

(** Modelled from the spec: [AIOptions] (python_options.h is not among the
    sources), with the members the header reads: "configuration surface
    {name: string, fogOfWar: bool, framesInState: integer, args: string}"
    and the frame skip [fs]. *)
Record AIOptions := {
  name : string;
  fs : Z;
  fow : bool;
  num_frames_in_state : Z;
  args : string
}.


Definition AIOptions_with_fs (o : AIOptions) (fs' : Z) : AIOptions :=
  {| name := name o; fs := fs'; fow := fow o;
     num_frames_in_state := num_frames_in_state o; args := args o |}.

Definition Tick := Z.

(* ===================================================================== *)
(** ** elf/ai.h: the agent base contract *)
(* ===================================================================== *)

Module Elf.

(** The classes an [AI *] can point to. *)
Inductive AIClass := SimpleAI | HitAndRunAI | LuaAI | TrainedAI | OtherAI.

(** Modelled from the spec: [elf::AI_T] (elf/ai.h is not among the sources),
    the base subobject of every agent.  "Agent: base capability contract
    (id/state binding, per-tick decision, episode-end hook)".  The members
    are private to the base: the classes of ai.h read them through [id()],
    [s()] and [s_ptr()] only. *)
Record AI_T (RTSState : Type) := {
  _name : string;
  _frame_skip : Z;
  _id : Z;
  _state : option RTSState      (* [const S *]; [None] is [nullptr] *)
}.

Arguments _name {RTSState} a.
Arguments _frame_skip {RTSState} a.
Arguments _id {RTSState} a.
Arguments _state {RTSState} a.

(** What ai.h leaves to the rest of the engine: the types behind the
    pointers, the bodies of the rule-based and trained agents (declared in
    ai.h, defined elsewhere), the random generator and [std::stof]. *)
Class Engine := {
  RTSState : Type;                 (* the address of a game state *)
  RTSMCAction : Type;
  atomic_bool : Type;              (* [const std::atomic_bool *done] *)
  members : Type;                  (* the members a concrete agent adds *)
  mt19937 : Type;                  (* the state of [std::mt19937] *)
  no_id : Z;                       (* [id()] of an agent before [SetId] *)
  AIOptions_default : AIOptions;   (* [AIOptions opt2;] *)
  members_init : AIClass -> AIOptions -> members;
  v_on_set_id : AIClass -> AI_T RTSState -> members -> members;
  v_on_set_state : AIClass -> AI_T RTSState -> members -> members;
  v_Act : AIClass -> AI_T RTSState -> members ->
          Tick -> RTSMCAction -> atomic_bool -> bool * RTSMCAction * members;
  v_GameEnd : AIClass -> AI_T RTSState -> members -> Tick -> bool * members;
  mt19937_default : mt19937;
  mt19937_seed : Z -> mt19937;
  mt19937_next : mt19937 -> Z * mt19937;
  stof : string -> result Float32.float
}.

Section Agents.
Context {E : Engine}.

(** An object reached through [AI *]: its base, its class, its own members. *)
Record AI := {
  base : AI_T RTSState;
  class : AIClass;
  data : members
}.

Definition id (a : AI) : Z := _id (base a).
Definition s_ptr (a : AI) : option RTSState := _state (base a).

(** [AI(opt.name, opt.fs)]. *)
Definition AI_T_new (opt : AIOptions) : AI_T RTSState :=
  {| _name := name opt; _frame_skip := fs opt; _id := no_id; _state := None |}.

(** [new SimpleAI(opt)], [new HitAndRunAI(opt)], ... *)
Definition new (c : AIClass) (opt : AIOptions) : AI :=
  {| base := AI_T_new opt; class := c; data := members_init c opt |}.

Definition AI_T_set_id (x : Z) (b : AI_T RTSState) : AI_T RTSState :=
  {| _name := _name b; _frame_skip := _frame_skip b; _id := x; _state := _state b |}.

Definition AI_T_set_state (y : RTSState) (b : AI_T RTSState) : AI_T RTSState :=
  {| _name := _name b; _frame_skip := _frame_skip b; _id := _id b; _state := Some y |}.

(** Modelled from the spec: [AI_T::SetId].  "SetId(id): identity binding":
    the identity is stored, then the class hook [on_set_id] runs. *)
Definition SetId (x : Z) (a : AI) : AI :=
  let b := AI_T_set_id x (base a) in
  {| base := b; class := class a; data := v_on_set_id (class a) b (data a) |}.

(** Modelled from the spec: [AI_T::SetState].  "SetState(ref): binding of the
    shared, non-owned GameState reference": the reference is stored, then the
    class hook [on_set_state] runs. *)
Definition SetState (y : RTSState) (a : AI) : AI :=
  let b := AI_T_set_state y (base a) in
  {| base := b; class := class a; data := v_on_set_state (class a) b (data a) |}.

(** [a->Act(t, action, done)] on a sub-agent: the action is written through
    the pointer, the agent's own members may change. *)
Definition Act (t : Tick) (action : RTSMCAction) (done : atomic_bool) (a : AI)
  : bool * RTSMCAction * AI :=
  let '(res, action', d) := v_Act (class a) (base a) (data a) t action done in
  (res, action', {| base := base a; class := class a; data := d |}).

(** [a->GameEnd(t)] on a sub-agent. *)
Definition GameEnd (t : Tick) (a : AI) : bool * AI :=
  let '(res, d) := v_GameEnd (class a) (base a) (data a) t in
  (res, {| base := base a; class := class a; data := d |}).

(** [std::unique_ptr<AI>]: [None] is the empty pointer. *)
Definition unique_ptr := option AI.

Definition not_null {A} (p : option A) : bool :=
  match p with Some _ => true | None => false end.

(** [p->...]: without defined behaviour on an empty pointer. *)
Definition deref {A} (p : option A) : result A :=
  match p with Some a => Ok a | None => Crash null_dereference end.

End Agents.

End Elf.

(* ===================================================================== *)
(** ** class MixedAI *)
(* ===================================================================== *)

Module MixedAI.

Import Elf.

Section MixedAI.
Context {E : Engine}.

Local Open Scope cxx_scope.

(** The object: the [AI] base followed by the members in declaration order. *)
Record object := {
  AI_base : AI_T RTSState;
  _backup_ai : unique_ptr;
  _main_ai : unique_ptr;
  _backup_ai_tick_thres : Tick;
  _rng : mt19937;
  _latest_start : Z;                       (* [int] *)
  _latest_start_decay : Float32.float      (* [float] *)
}.

Definition id (m : object) : Z := _id (AI_base m).
Definition s_ptr (m : object) : option RTSState := _state (AI_base m).

Definition with_base (b : AI_T RTSState) (m : object) : object :=
  {| AI_base := b; _backup_ai := _backup_ai m; _main_ai := _main_ai m;
     _backup_ai_tick_thres := _backup_ai_tick_thres m; _rng := _rng m;
     _latest_start := _latest_start m;
     _latest_start_decay := _latest_start_decay m |}.

Definition with_backup_ai (p : unique_ptr) (m : object) : object :=
  {| AI_base := AI_base m; _backup_ai := p; _main_ai := _main_ai m;
     _backup_ai_tick_thres := _backup_ai_tick_thres m; _rng := _rng m;
     _latest_start := _latest_start m;
     _latest_start_decay := _latest_start_decay m |}.

Definition with_main_ai (p : unique_ptr) (m : object) : object :=
  {| AI_base := AI_base m; _backup_ai := _backup_ai m; _main_ai := p;
     _backup_ai_tick_thres := _backup_ai_tick_thres m; _rng := _rng m;
     _latest_start := _latest_start m;
     _latest_start_decay := _latest_start_decay m |}.

Definition with_backup_ai_tick_thres (n : Tick) (m : object) : object :=
  {| AI_base := AI_base m; _backup_ai := _backup_ai m; _main_ai := _main_ai m;
     _backup_ai_tick_thres := n; _rng := _rng m;
     _latest_start := _latest_start m;
     _latest_start_decay := _latest_start_decay m |}.

Definition with_rng (g : mt19937) (m : object) : object :=
  {| AI_base := AI_base m; _backup_ai := _backup_ai m; _main_ai := _main_ai m;
     _backup_ai_tick_thres := _backup_ai_tick_thres m; _rng := g;
     _latest_start := _latest_start m;
     _latest_start_decay := _latest_start_decay m |}.

Definition with_latest_start (n : Z) (m : object) : object :=
  {| AI_base := AI_base m; _backup_ai := _backup_ai m; _main_ai := _main_ai m;
     _backup_ai_tick_thres := _backup_ai_tick_thres m; _rng := _rng m;
     _latest_start := n;
     _latest_start_decay := _latest_start_decay m |}.

Definition with_latest_start_decay (f : Float32.float) (m : object) : object :=
  {| AI_base := AI_base m; _backup_ai := _backup_ai m; _main_ai := _main_ai m;
     _backup_ai_tick_thres := _backup_ai_tick_thres m; _rng := _rng m;
     _latest_start := _latest_start m;
     _latest_start_decay := f |}.

(** *** [_parse] *)

(** One item of the argument string: kept when it splits in exactly two. *)
Definition _parse_item (kvmap : Std.map) (item : string) : Std.map :=
  match CmdLineUtils.split item "/" with
  | [k; v] => Std.insert k v kvmap
  | _ => kvmap
  end.

Definition _parse (args : string) : Std.map :=
  fold_left _parse_item (CmdLineUtils.split args "|") [].

(** *** The constructor *)

(** The line written to [std::cout] for a key that is not recognised. *)
Definition unrecognized (k v : string) : string :=
  ("Unrecognized (key, value) = (" ++ k ++ "," ++ v ++ ")")%string.

(** The body of the loop over the parsed pairs; the lines written so far
    travel with the object. *)
Definition configure (opt : AIOptions) (acc : object * list string)
    (kv : string * string) : result (object * list string) :=
  let '(m, out) := acc in
  let '(k, v) := kv in
  if String.eqb k "start" then
    n <- Std.stoi v ;;
    Ok (with_latest_start n m, out)
  else if String.eqb k "decay" then
    f <- stof v ;;
    Ok (with_latest_start_decay f m, out)
  else if String.eqb k "backup" then
    let opt2 := AIOptions_with_fs AIOptions_default (fs opt) in
    if String.eqb v "AI_SIMPLE" || String.eqb v "ai_simple" then
      Ok (with_backup_ai (Some (new SimpleAI opt2)) m, out)
    else if String.eqb v "AI_HIT_AND_RUN" || String.eqb v "ai_hit_and_run" then
      Ok (with_backup_ai (Some (new HitAndRunAI opt2)) m, out)
    else Ok (m, out)
  else
    Ok (m, out ++ [unrecognized k v]).

Fixpoint configure_all (opt : AIOptions) (kvs : Std.map) (acc : object * list string)
  : result (object * list string) :=
  match kvs with
  | [] => Ok acc
  | kv :: kvs' =>
      acc' <- configure opt acc kv ;;
      configure_all opt kvs' acc'
  end.

(** The members as their default initialisers leave them. *)
Definition initial (opt : AIOptions) : object :=
  {| AI_base := AI_T_new opt;
     _backup_ai := None;
     _main_ai := None;
     _backup_ai_tick_thres := 0;
     _rng := mt19937_default;
     _latest_start := 0;
     _latest_start_decay := Float32.zero |}.

(** After the loop the backup agent, if any, receives the identity and the
    state of the object under construction. *)
Definition bind_backup (m : object) : object :=
  match _backup_ai m with
  | Some b =>
      let b1 := SetId (id m) b in
      let b2 := match s_ptr m with
                | Some y => SetState y b1
                | None => b1
                end in
      with_backup_ai (Some b2) m
  | None => m
  end.

(** [MixedAI(opt)]; [now] is the value of [time(NULL)].  The result carries
    the lines written to [std::cout]. *)
Definition MixedAI (now : Z) (opt : AIOptions) : result (object * list string) :=
  let m0 := initial opt in
  '(m1, out) <-
     (if negb (String.eqb (args opt) "") then
        '(m, out) <- configure_all opt (_parse (args opt)) (m0, []) ;;
        Ok (bind_backup m, out)
      else Ok (m0, [])) ;;
  Ok (with_rng (mt19937_seed now) m1, out).

(** *** [SetMainAI] *)

(** [main_ai] is a plain [AI *]: it may be null, and is then dereferenced. *)
Definition SetMainAI (main_ai : option AI) (m : object) : result object :=
  a <- deref main_ai ;;
  let a1 := SetId (id m) a in
  let a2 := match s_ptr m with
            | Some y => SetState y a1
            | None => a1
            end in
  Ok (with_main_ai (Some a2) m).

(** *** [GameEnd] *)

(** Modelled from the spec: [AI_T::GameEnd], the episode-end hook of the base
    ("performs base housekeeping only"); it has no access to the members of
    [MixedAI], which drops its result. *)
Definition AI_GameEnd (t : Tick) (m : object) : bool * object := (true, m).

(** [_latest_start *= _latest_start_decay]: the [int] is converted to
    [float], multiplied in single precision, and the product is truncated
    back to [int]. *)
Definition times_decay (decay : Float32.float) (latest_start : Z) : result Z :=
  Float32.to_int (Float32.mul (Float32.of_int latest_start) decay).

Definition decay_latest_start (m : object) : result object :=
  n <- times_decay (_latest_start_decay m) (_latest_start m) ;;
  Ok (with_latest_start n m).

(** [int(_latest_start + 0.5)]: the sum is exact in [double]; the
    conversion truncates toward zero. *)
Definition rounded_latest_start (m : object) : Z :=
  Z.quot (2 * _latest_start m + 1) 2.

(** [_backup_ai_tick_thres = _rng() % (int(_latest_start + 0.5) + 1)]. *)
Definition sample_tick_thres (m : object) : result object :=
  let '(r, g) := mt19937_next (_rng m) in
  let n := rounded_latest_start m in
  if n =? INT_MAX then Crash signed_overflow
  else
    let d := to_uint_fast32 (n + 1) in
    if d =? 0 then Crash division_by_zero
    else Ok (with_backup_ai_tick_thres (wrap_int (r mod d)) (with_rng g m)).

Definition GameEnd (t : Tick) (m : object) : result (bool * object) :=
  let '(_, m0) := AI_GameEnd t m in
  (* Always ended with main_ai. *)
  main <- deref (_main_ai m0) ;;
  let '(res, main') := Elf.GameEnd t main in
  let m1 := with_main_ai (Some main') m0 in
  (* Decay latest_start. *)
  m2 <- decay_latest_start m1 ;;
  (* Random tick. *)
  m3 <- sample_tick_thres m2 ;;
  Ok (res, m3).

(** *** [on_set_id], [on_set_state] and the inherited [SetId], [SetState] *)

Definition on_set_id (m : object) : object :=
  let m1 := match _backup_ai m with
            | Some b => with_backup_ai (Some (Elf.SetId (id m) b)) m
            | None => m
            end in
  match _main_ai m1 with
  | Some a => with_main_ai (Some (Elf.SetId (id m1) a)) m1
  | None => m1
  end.

(** [s()] dereferences the state pointer. *)
Definition s (m : object) : result RTSState := deref (s_ptr m).

Definition on_set_state (m : object) : result object :=
  m1 <- match _backup_ai m with
        | Some b => y <- s m ;; Ok (with_backup_ai (Some (Elf.SetState y b)) m)
        | None => Ok m
        end ;;
  match _main_ai m1 with
  | Some a => y <- s m1 ;; Ok (with_main_ai (Some (Elf.SetState y a)) m1)
  | None => Ok m1
  end.

(** [SetId] and [SetState] are inherited from the base: they store the
    binding and call the hook that [MixedAI] overrides. *)
Definition SetId (x : Z) (m : object) : object :=
  on_set_id (with_base (AI_T_set_id x (AI_base m)) m).

Definition SetState (y : RTSState) (m : object) : result object :=
  on_set_state (with_base (AI_T_set_state y (AI_base m)) m).

(** A sub-agent slot is bound to [X] and [Y] when the agent in it, if any,
    reports them. *)
Definition bound (X : Z) (Y : RTSState) (p : unique_ptr) : Prop :=
  forall a, p = Some a -> Elf.id a = X /\ Elf.s_ptr a = Some Y.

(** *** [on_act] *)

(** The condition of the [if]:
    [_backup_ai != nullptr && t < _backup_ai_tick_thres]. *)
Definition backup_acts (m : object) (t : Tick) : bool :=
  not_null (_backup_ai m) && (t <? _backup_ai_tick_thres m).

(** [return _backup_ai->Act(t, a, done);] *)
Definition Act_backup (t : Tick) (a : RTSMCAction) (done : atomic_bool) (m : object)
  : result (bool * RTSMCAction * object) :=
  b <- deref (_backup_ai m) ;;
  let '(res, a', b') := Elf.Act t a done b in
  Ok (res, a', with_backup_ai (Some b') m).

(** [return _main_ai->Act(t, a, done);] *)
Definition Act_main (t : Tick) (a : RTSMCAction) (done : atomic_bool) (m : object)
  : result (bool * RTSMCAction * object) :=
  b <- deref (_main_ai m) ;;
  let '(res, a', b') := Elf.Act t a done b in
  Ok (res, a', with_main_ai (Some b') m).

Definition on_act (t : Tick) (a : RTSMCAction) (done : atomic_bool) (m : object)
  : result (bool * RTSMCAction * object) :=
  if backup_acts m t then Act_backup t a done m
  else Act_main t a done m.

(** *** Runs of the driver *)

(** The calls the driver makes on a constructed object. *)
Inductive call :=
| call_SetMainAI (main_ai : option AI)
| call_SetId (x : Z)
| call_SetState (y : RTSState)
| call_Act (t : Tick) (a : RTSMCAction) (done : atomic_bool)
| call_GameEnd (t : Tick).

Definition is_GameEnd (c : call) : bool :=
  match c with call_GameEnd _ => true | _ => false end.

(** The object after one call (what the call returns is dropped). *)
Definition exec (c : call) (m : object) : result object :=
  match c with
  | call_SetMainAI a => SetMainAI a m
  | call_SetId x => Ok (SetId x m)
  | call_SetState y => SetState y m
  | call_Act t a done => '(_, _, m') <- on_act t a done m ;; Ok m'
  | call_GameEnd t => '(_, m') <- GameEnd t m ;; Ok m'
  end.

Fixpoint run (cs : list call) (m : object) : result object :=
  match cs with
  | [] => Ok m
  | c :: cs' => m' <- exec c m ;; run cs' m'
  end.

(** *** Relations between an object and its successor *)

(** The members a call can reach. *)
Record same_curriculum (m m' : object) : Prop := {
  same_thres : _backup_ai_tick_thres m' = _backup_ai_tick_thres m;
  same_start : _latest_start m' = _latest_start m;
  same_decay : _latest_start_decay m' = _latest_start_decay m;
  same_rng : _rng m' = _rng m;
  same_backup_set : not_null (_backup_ai m') = not_null (_backup_ai m)
}.

(** What the loop body does to the three configured members, entry by
    entry. *)
Record configured (m m' : object) : Prop := {
  conf_base : AI_base m' = AI_base m;
  conf_main : _main_ai m' = _main_ai m;
  conf_thres : _backup_ai_tick_thres m' = _backup_ai_tick_thres m;
  conf_rng : _rng m' = _rng m
}.

End MixedAI.
End MixedAI.

(* ===================================================================== *)
(** ** class TrainedAI: the history sent to the model *)
(* ===================================================================== *)

Module CircularQueue.

Section Queue.
Context {T : Type}.

(** Modelled from the spec: [CircularQueue<T>] (elf/circular_queue.h is not
    among the sources).  "Fixed-capacity circular sequence ..., capacity =
    configured frame count; newest overwrites oldest once full": the slots
    [v] are allocated once, [_head] is the slot the next push writes and
    [_sz] counts the slots in use. *)
Record t := {
  v : list T;
  _head : nat;
  _sz : nat
}.

Definition maxlen (q : t) : nat := List.length (v q).

(** [CircularQueue(n)] with every slot set to [empty]
    ([for (auto &v : _recent_states.v()) v.clear();]). *)
Definition new (n : nat) (empty : T) : t :=
  {| v := repeat empty n; _head := 0; _sz := 0 |}.

(** [l[i] = x]; an index past the end writes nothing. *)
Fixpoint assign (l : list T) (i : nat) (x : T) : list T :=
  match l, i with
  | [], _ => []
  | _ :: l', O => x :: l'
  | y :: l', S i' => y :: assign l' i' x
  end.

(** Modelled from the spec: "pushes it into HistoryBuffer (evicting the oldest
    entry if full)"; the write position wraps around the slots. *)
Definition Push (x : T) (q : t) : t :=
  {| v := assign (v q) (_head q) x;
     _head := Nat.modulo (S (_head q)) (maxlen q);
     _sz := Nat.min (S (_sz q)) (maxlen q) |}.

(** The slot of the [i]-th oldest entry in use. *)
Definition slot (q : t) (i : nat) : nat :=
  Nat.modulo (_head q + maxlen q - _sz q + i) (maxlen q).

(** Modelled from the spec: "the buffer's full window (oldest->newest)": the
    entries in use, read from the oldest slot on. *)
Definition window (q : t) : list T :=
  flat_map (fun i => match nth_error (v q) (slot q i) with
                     | Some x => [x]
                     | None => []
                     end)
           (seq 0 (_sz q)).

(** The queue after the pushes [xs], all of them made on [new C empty]. *)
Record holds (C : nat) (q : t) (xs : list T) : Prop := {
  holds_maxlen : maxlen q = C;
  holds_head : _head q = Nat.modulo (List.length xs) C;
  holds_sz : _sz q = Nat.min (List.length xs) C;
  holds_slots : forall j, (j < List.length xs)%nat ->
                          (List.length xs <= j + C)%nat ->
                          nth_error (v q) (Nat.modulo j C) = nth_error xs j
}.

End Queue.

Arguments t T : clear implicits.

End CircularQueue.

Module TrainedAI.

Section TrainedAI.

(** A feature vector is a [std::vector<float>]. *)
Definition FeatureVector := list Float32.float.

(** What [compute_state] reads (the game state at the tick of the call) is
    left to the engine, as is its body (declared in ai.h, defined
    elsewhere). *)
Context {GameState : Type}.
Variable compute_state : bool -> GameState -> FeatureVector.

(** The members [TrainedAI] adds to its base. *)
Record object := {
  _respect_fow : bool;
  _recent_states : CircularQueue.t FeatureVector
}.

(** [TrainedAI()]: one frame of history. *)
Definition TrainedAI_default : object :=
  {| _respect_fow := true; _recent_states := CircularQueue.new 1 [] |}.

(** [TrainedAI(opt)]: [num_frames_in_state] frames of history, all cleared. *)
Definition TrainedAI (opt : AIOptions) : object :=
  {| _respect_fow := fow opt;
     _recent_states := CircularQueue.new (Z.to_nat (num_frames_in_state opt)) [] |}.

(** Modelled from the spec: [TrainedAI::extract] (declared in ai.h, defined
    elsewhere).  "Computes the current FeatureVector, pushes it into
    HistoryBuffer (evicting the oldest entry if full), then copies the
    buffer's full window (oldest->newest) into outPayload."  The result is
    the object after the call and the payload. *)
Definition extract (s : GameState) (a : object) : object * list FeatureVector :=
  let state := compute_state (_respect_fow a) s in
  let q := CircularQueue.Push state (_recent_states a) in
  ({| _respect_fow := _respect_fow a; _recent_states := q |},
   CircularQueue.window q).

(** One [extract] per game state, in order; the payload of the last call
    (none before the first call). *)
Fixpoint extract_each (ss : list GameState) (a : object) (last : list FeatureVector)
  : object * list FeatureVector :=
  match ss with
  | [] => (a, last)
  | s :: ss' => let '(a', w) := extract s a in extract_each ss' a' w
  end.

End TrainedAI.

(** The last [k] elements of a list, in their order. *)
Definition lastn {A} (k : nat) (l : list A) : list A :=
  skipn (List.length l - k) l.

End TrainedAI.

(* ===================================================================== *)
(** ** The curriculum as the specification words it *)
(* ===================================================================== *)

Module Curriculum.

(** [latest_start] after [k] episodes, as the code computes it: [k]
    applications of [_latest_start *= _latest_start_decay]. *)
Fixpoint latest_start_after (decay : Float32.float) (k : nat) (start : Z) : result Z :=
  match k with
  | O => Ok start
  | S k' =>
      match latest_start_after decay k' start with
      | Ok n => MixedAI.times_decay decay n
      | r => r
      end
  end.

(** The specification's bound "round(S * D^k)", in exact arithmetic: for
    [D = p / q] this is the integer part of [S * p^k / q^k + 1/2]. *)
Definition spec_bound (S : Z) (D : Float32.float) (k : nat) : option Z :=
  match Float32.to_ratio D with
  | Some (p, q) =>
      Some ((2 * S * p ^ Z.of_nat k + q ^ Z.of_nat k) / (2 * q ^ Z.of_nat k))
  | None => None
  end.

(** The number of completed episodes in a run of calls. *)
Definition episodes {E : Elf.Engine} (cs : list MixedAI.call) : nat :=
  List.length (filter MixedAI.is_GameEnd cs).

(** The curriculum [j] episodes after it started from [S] and [D]: the
    decay is still [D], [_latest_start] is the [j]-th decayed value, and the
    threshold drawn at the end of the last episode is within it. *)
Definition after_episodes {E : Elf.Engine} (S : Z) (D : Float32.float) (j : nat)
    (m : MixedAI.object) : Prop :=
  MixedAI._latest_start_decay m = D /\
  latest_start_after D j S = Ok (MixedAI._latest_start m) /\
  0 <= MixedAI._latest_start m <= S /\
  ((1 <= j)%nat ->
   0 <= MixedAI._backup_ai_tick_thres m <= MixedAI._latest_start m) /\
  (Float32.ltb D Float32.one = true ->
   MixedAI._latest_start m <= Z.max 0 (S - Z.of_nat j)).

(** The values of [backup] that select an agent. *)
Definition backup_known (v : string) : bool :=
  String.eqb v "AI_SIMPLE" || String.eqb v "ai_simple" ||
  String.eqb v "AI_HIT_AND_RUN" || String.eqb v "ai_hit_and_run".

(** The keys the constructor handles without writing a line. *)
Definition key_known (k : string) : bool :=
  String.eqb k "start" || String.eqb k "decay" || String.eqb k "backup".

(** The lines the constructor writes for a parsed map: one per entry whose
    key is not known, in the order of the map. *)
Definition unrecognized_lines (kvs : Std.map) : list string :=
  List.map (fun kv => MixedAI.unrecognized (fst kv) (snd kv))
           (filter (fun kv => negb (key_known (fst kv))) kvs).

End Curriculum.

(* ===================================================================== *)
(** ** A small engine for concrete runs *)
(* ===================================================================== *)

Module Demo.

(** Decimal digits after the sign: the digits read so far as a number, and
    the power of ten to divide by once the point has been passed. *)
Fixpoint read_decimal (s : string) (seen_point : bool) (num scale : Z) (any : bool)
  : Z * Z * bool :=
  match s with
  | String c s' =>
      match Std.digit c with
      | Some d =>
          read_decimal s' seen_point (10 * num + d)
                       (if seen_point then 10 * scale else scale) true
      | None =>
          if Ascii.eqb c "." && negb seen_point
          then read_decimal s' true num scale any
          else (num, scale, any)
      end
  | EmptyString => (num, scale, any)
  end.

(** A stand-in for [std::stof] on plain decimal numerals [ddd.ddd] (exact
    when the digits and the power of ten fit 24 bits). *)
Definition stof (s : string) : result Float32.float :=
  let s1 := Std.skip_spaces s in
  let '(neg, s2) :=
    match s1 with
    | String "-"%char r => (true, r)
    | String "+"%char r => (false, r)
    | _ => (false, s1)
    end in
  let '(num, scale, any) := read_decimal s2 false 0 1 false in
  if any then
    Ok (SFdiv Float32.prec Float32.emax
          (Float32.of_int (if neg then - num else num)) (Float32.of_int scale))
  else Raise invalid_argument.

(** States, actions and the members of an agent are numbers; every agent
    answers with the code of its class and counts its calls. *)
Definition code (c : Elf.AIClass) : Z :=
  match c with
  | Elf.SimpleAI => 1
  | Elf.HitAndRunAI => 2
  | Elf.LuaAI => 3
  | Elf.TrainedAI => 4
  | Elf.OtherAI => 5
  end.

(** The generator of the concrete runs: a 32-bit counter that returns its
    state. *)
Definition counter_seed (s : Z) : Z := s mod 2 ^ 32.
Definition counter_next (g : Z) : Z * Z := (g, (g + 1) mod 2 ^ 32).

Definition default_options : AIOptions :=
  {| name := ""; fs := 1; fow := true; num_frames_in_state := 1; args := "" |}.

Definition engine : Elf.Engine :=
  @Elf.Build_Engine Z Z bool Z Z (-1) default_options
     (fun _ _ => 0)
     (fun _ _ d => d)
     (fun _ _ d => d)
     (fun c _ d _ _ _ => (true, code c, d + 1))
     (fun c _ d _ => (Z.even (code c), d))
     5489 counter_seed counter_next stof.

Definition options (a : string) : AIOptions :=
  {| name := "mixed"; fs := 1; fow := true; num_frames_in_state := 1; args := a |}.

(** A trained agent to install as the main agent. *)
Definition trained : @Elf.AI engine :=
  @Elf.new engine Elf.TrainedAI (options "").

(** A constructed object with the trained agent installed; [now] seeds the
    generator. *)
Definition launch (now : Z) (a : string) : result (@MixedAI.object engine) :=
  Cxx.bind (@MixedAI.MixedAI engine now (options a))
           (fun r => @MixedAI.SetMainAI engine (Some trained) (fst r)).

Definition get (r : result (@MixedAI.object engine)) : @MixedAI.object engine :=
  match r with
  | Ok m => m
  | _ => @MixedAI.initial engine (options "")
  end.

(** [start = 10], [decay = 0.5], a [SimpleAI] backup: as constructed, then
    with the main agent installed. *)
Definition fresh10 : @MixedAI.object engine :=
  Eval vm_compute in
    get (Cxx.returned (@MixedAI.MixedAI engine 7
                         (options "start/10|decay/0.5|backup/ai_simple"))).

Definition ready10 : @MixedAI.object engine :=
  Eval vm_compute in get (launch 7 "start/10|decay/0.5|backup/ai_simple").

Definition main10 : @Elf.AI engine :=
  Eval vm_compute in
    match @MixedAI._main_ai engine ready10 with
    | Some a => a
    | None => trained
    end.

(** [k] episodes, each closed by [GameEnd] at tick 100. *)
Definition episodes (k : nat) : list (@MixedAI.call engine) :=
  repeat (@MixedAI.call_GameEnd engine 100) k.

Definition after (k : nat) (m : @MixedAI.object engine) : @MixedAI.object engine :=
  get (@MixedAI.run engine (episodes k) m).

Definition after1 : @MixedAI.object engine := Eval vm_compute in after 1 ready10.
Definition after3 : @MixedAI.object engine := Eval vm_compute in after 3 ready10.
Definition after4 : @MixedAI.object engine := Eval vm_compute in after 4 ready10.
Definition after5 : @MixedAI.object engine := Eval vm_compute in after 5 ready10.

(** The second episode of [ready10] (threshold 1), after a tick of the
    backup agent, a rebinding and a tick of the main agent. *)
Definition second_episode : list (@MixedAI.call engine) :=
  [@MixedAI.call_Act engine 0 0 false;
   @MixedAI.call_SetId engine 3;
   @MixedAI.call_Act engine 1 0 false].

Definition after1_acted : @MixedAI.object engine :=
  Eval vm_compute in get (@MixedAI.run engine second_episode after1).

(** The first episode of [fresh10]: the main agent is installed, bound and
    asked for two ticks. *)
Definition first_episode : list (@MixedAI.call engine) :=
  [@MixedAI.call_SetMainAI engine (Some trained);
   @MixedAI.call_SetId engine 3;
   @MixedAI.call_SetState engine 4096;
   @MixedAI.call_Act engine 0 0 false;
   @MixedAI.call_Act engine 1 0 false].

Definition fresh10_acted : @MixedAI.object engine :=
  Eval vm_compute in get (@MixedAI.run engine first_episode fresh10).

(** An unknown [backup] value beside an unknown key. *)
Definition lua_object : @MixedAI.object engine :=
  Eval vm_compute in
    get (Cxx.returned (@MixedAI.MixedAI engine 7
                         (options "start/10|backup/ai_lua|foo/bar"))).

(** [start = 16000002], [decay = 0.75], generator seeded with 9000001. *)
Definition three_quarters : Float32.float := S754_finite false 12582912 (-24).

Definition ready_large : @MixedAI.object engine :=
  Eval vm_compute in get (launch 9000001 "start/16000002|decay/0.75").

Definition after2_large : @MixedAI.object engine :=
  Eval vm_compute in after 2 ready_large.

End Demo.

(* ===================================================================== *)
(** ** Reading the parsed map and the sub-agents *)
(* ===================================================================== *)

Module Config.

(** Keys in strictly increasing order, the order [std::map] iterates in. *)
Fixpoint sorted (m : Std.map) : bool :=
  match m with
  | [] => true
  | (k, _) :: m' =>
      match m' with
      | [] => true
      | (k', _) :: _ => String.ltb k k' && sorted m'
      end
  end.

(** The value of the first item [k/v] for the key [k] among the items of an
    argument string; items that do not split in two are passed over, as
    [_parse] passes over them. *)
Fixpoint first_field (k : string) (items : list string) : option string :=
  match items with
  | [] => None
  | item :: rest =>
      match CmdLineUtils.split item "/" with
      | [k'; v] => if String.eqb k' k then Some v else first_field k rest
      | _ => first_field k rest
      end
  end.

(** The class the constructor instantiates for a value of [backup]. *)
Definition selected (v : option string) : option Elf.AIClass :=
  match v with
  | Some s =>
      if String.eqb s "AI_SIMPLE" || String.eqb s "ai_simple"
      then Some Elf.SimpleAI
      else if String.eqb s "AI_HIT_AND_RUN" || String.eqb s "ai_hit_and_run"
      then Some Elf.HitAndRunAI
      else None
  | None => None
  end.

Section Objects.
Context {E : Elf.Engine}.

(** A sub-agent slot agrees with the object holding it: the agent in it, if
    any, reports the identity of the object, and its state once the object
    has one. *)
Definition agrees (m : MixedAI.object) (p : Elf.unique_ptr) : Prop :=
  forall a, p = Some a ->
    Elf.id a = MixedAI.id m /\
    (forall y, MixedAI.s_ptr m = Some y -> Elf.s_ptr a = Some y).

Definition all_agree (m : MixedAI.object) : Prop :=
  agrees m (MixedAI._backup_ai m) /\ agrees m (MixedAI._main_ai m).

(** The generator after [k] draws. *)
Fixpoint drawn (k : nat) (g : Elf.mt19937) : Elf.mt19937 :=
  match k with
  | O => g
  | S k' => snd (Elf.mt19937_next (drawn k' g))
  end.

Definition is_SetMainAI (c : MixedAI.call) : bool :=
  match c with MixedAI.call_SetMainAI (Some _) => true | _ => false end.

End Objects.

End Config.

Module Demo2.

(** [start = -2], [decay = 1], main agent installed. *)
Definition ready_minus2 : @MixedAI.object Demo.engine :=
  Eval vm_compute in Demo.get (Demo.launch 7 "start/-2|decay/1").

(** [start = 10] and a backup agent, but no [decay]. *)
Definition fresh_idle : @MixedAI.object Demo.engine :=
  Eval vm_compute in
    Demo.get (Cxx.returned (@MixedAI.MixedAI Demo.engine 7
                              (Demo.options "start/10|backup/ai_simple"))).

Definition idle_run : list (@MixedAI.call Demo.engine) :=
  [@MixedAI.call_SetMainAI Demo.engine (Some Demo.trained);
   @MixedAI.call_GameEnd Demo.engine 100;
   @MixedAI.call_Act Demo.engine 0 0 false].

Definition idle_after : @MixedAI.object Demo.engine :=
  Eval vm_compute in Demo.get (@MixedAI.run Demo.engine idle_run fresh_idle).

(** The main agent is installed, then three episodes end. *)
Definition three_episodes : list (@MixedAI.call Demo.engine) :=
  @MixedAI.call_SetMainAI Demo.engine (Some Demo.trained) :: Demo.episodes 3.

(** The calls that open [Demo.first_episode]. *)
Definition binding_calls : list (@MixedAI.call Demo.engine) :=
  [@MixedAI.call_SetMainAI Demo.engine (Some Demo.trained);
   @MixedAI.call_SetId Demo.engine 3;
   @MixedAI.call_SetState Demo.engine 4096].

End Demo2.

(* ===================================================================== *)
(** ** The decayed start against the exact product *)
(* ===================================================================== *)

Module Geometric.

(** [L] against [S * (p / q)^k], the exact product after [k] decays by
    [p / q]: not more than [k] below it, and above it by no more than
    [k * S * 2^-24] and than [(S * (S + 1) - L * (L + 1)) * 2^-25]. *)
Definition near_product (S p q : Z) (k : nat) (L : Z) : Prop :=
  S * p ^ Z.of_nat k <= (L + Z.of_nat k) * q ^ Z.of_nat k /\
  2 ^ 24 * (L * q ^ Z.of_nat k - S * p ^ Z.of_nat k)
    <= Z.of_nat k * S * q ^ Z.of_nat k /\
  2 ^ 25 * (L * q ^ Z.of_nat k - S * p ^ Z.of_nat k)
    <= (S * (S + 1) - L * (L + 1)) * q ^ Z.of_nat k.

End Geometric.

Module Demo3.



(** [start = 65792], [decay = 1 - 2^-16], generator seeded with 65299; and
    the object after 247 episodes. *)
Definition slow : Float32.float := S754_finite false 16776960 (-24).

Definition ready_slow : @MixedAI.object Demo.engine :=
  Eval vm_compute in
    Demo.get (Demo.launch 65299 "start/65792|decay/0.9999847412109375").

Definition after247_slow : @MixedAI.object Demo.engine :=
  Eval vm_compute in Demo.after 247 ready_slow.

End Demo3.

(* ===================================================================== *)
(** * Facts about single-precision rounding *)
(* ===================================================================== *)

Module Float32_facts.

Import Float32.

(** [digits2_pos] counts the binary digits. *)
Lemma digits2_pos_size (p : positive) : digits2_pos p = Pos.size p.
Proof. induction p; simpl; congruence. Qed.

Lemma digits2_bounds (p : positive) :
  2 ^ (Zpos (digits2_pos p) - 1) <= Zpos p < 2 ^ Zpos (digits2_pos p).
Proof.
  rewrite digits2_pos_size. split.
  - pose proof (Pos.size_le p) as H.
    assert (Hs : Zpos (Pos.size p) = Z.succ (Zpos (Pos.size p) - 1)) by lia.
    assert (H2 : 2 ^ Zpos (Pos.size p) <= 2 * Zpos p).
    { rewrite <- Pos2Z.inj_pow. lia. }
    rewrite Hs, Z.pow_succ_r in H2 by lia. lia.
  - pose proof (Pos.size_gt p) as H.
    rewrite <- Pos2Z.inj_pow. lia.
Qed.

(** The shift loop of the rounding is a plain iteration. *)
Lemma iter_pos_nat {A} (f : A -> A) (p : positive) (x : A) :
  iter_pos f p x = Nat.iter (Pos.to_nat p) f x.
Proof.
  revert x. induction p as [p IH | p IH |]; intro x; cbn [iter_pos].
  - rewrite !IH, Pos2Nat.inj_xI.
    replace (S (2 * Pos.to_nat p))%nat
      with (Pos.to_nat p + (Pos.to_nat p + 1))%nat by lia.
    rewrite !Nat.iter_add. reflexivity.
  - rewrite !IH, Pos2Nat.inj_xO.
    replace (2 * Pos.to_nat p)%nat with (Pos.to_nat p + Pos.to_nat p)%nat by lia.
    rewrite Nat.iter_add. reflexivity.
  - reflexivity.
Qed.

(** One shift halves the mantissa and remembers the bit shifted out. *)
Lemma shr_1_spec (mrs : shr_record) :
  0 <= shr_m mrs ->
  shr_m (shr_1 mrs) = shr_m mrs / 2 /\
  shr_r (shr_1 mrs) = Z.odd (shr_m mrs).
Proof.
  destruct mrs as [m r s]; simpl. intro Hm.
  destruct m as [| p | p]; [now split | | lia].
  destruct p as [p | p |]; simpl; split; try reflexivity.
  - rewrite Pos2Z.inj_xI. apply Z.div_unique with (r := 1); lia.
  - rewrite Pos2Z.inj_xO. apply Z.div_unique with (r := 0); lia.
Qed.

Lemma shr_iter_spec (k : nat) (m : Z) :
  0 <= m ->
  shr_m (Nat.iter (S k) shr_1 (Build_shr_record m false false))
    = m / 2 ^ Z.of_nat (S k) /\
  shr_r (Nat.iter (S k) shr_1 (Build_shr_record m false false))
    = Z.odd (m / 2 ^ Z.of_nat k).
Proof.
  intro Hm. induction k as [| k IH].
  - rewrite Nat.iter_succ. cbn [Nat.iter nat_rect].
    destruct (shr_1_spec (Build_shr_record m false false) Hm) as [H1 H2].
    rewrite H1, H2. cbn [shr_m]. change (Z.of_nat 0) with 0. change (Z.of_nat 1) with 1.
    rewrite Z.pow_0_r, Z.div_1_r, Z.pow_1_r. now split.
  - rewrite Nat.iter_succ.
    destruct IH as [IH1 IH2].
    set (mrs := Nat.iter (S k) shr_1 (Build_shr_record m false false)) in *.
    assert (Hpos : 0 <= shr_m mrs).
    { rewrite IH1. apply Z.div_pos; [lia | apply Z.pow_pos_nonneg; lia]. }
    destruct (shr_1_spec mrs Hpos) as [H1 H2].
    rewrite H1, H2, IH1. split; [| reflexivity].
    rewrite Z.div_div by (try apply Z.pow_pos_nonneg; lia).
    f_equal. rewrite (Nat2Z.inj_succ (S k)), Z.pow_succ_r by lia. lia.
Qed.

Lemma odd_div_pow2_mod (m k : Z) :
  0 <= k -> Z.odd (m / 2 ^ k) = true -> 2 ^ k <= m mod 2 ^ (k + 1).
Proof.
  intros Hk Hodd.
  assert (HP : 0 < 2 ^ k) by (apply Z.pow_pos_nonneg; lia).
  rewrite Z.pow_add_r, Z.pow_1_r by lia.
  set (P := 2 ^ k) in *.
  pose proof (Z.div_mod m P ltac:(lia)) as Hm.
  pose proof (Z.mod_pos_bound m P HP) as Hr.
  apply Z.odd_spec in Hodd. destruct Hodd as [q Hq].
  assert (Heq : m mod (P * 2) = P + m mod P).
  { symmetry. apply Z.mod_unique with (q := q); [lia | nia]. }
  lia.
Qed.

(** A right shift by [p > 0] bits of an exact non-negative mantissa. *)
Lemma shr_pos_spec (m e : Z) (p : positive) :
  0 <= m ->
  let mrs := fst (shr (Build_shr_record m false false) e (Zpos p)) in
  snd (shr (Build_shr_record m false false) e (Zpos p)) = e + Zpos p /\
  shr_m mrs = m / 2 ^ Zpos p /\
  (shr_r mrs = true -> 2 ^ (Zpos p - 1) <= m mod 2 ^ Zpos p).
Proof.
  intro Hm. cbv zeta. unfold shr. cbn [fst snd].
  rewrite iter_pos_nat.
  destruct (Pos2Nat.is_succ p) as [k Hk]. rewrite Hk.
  destruct (shr_iter_spec k m Hm) as [H1 H2].
  assert (Hp : Zpos p = Z.of_nat (S k)) by lia.
  rewrite H1, H2, Hp. split; [reflexivity | split; [reflexivity |]].
  intro Hodd. apply odd_div_pow2_mod in Hodd; [| lia].
  replace (Z.of_nat (S k) - 1) with (Z.of_nat k) by lia.
  replace (Z.of_nat (S k)) with (Z.of_nat k + 1) by lia. exact Hodd.
Qed.

(** Rounding to nearest keeps the mantissa or adds one, and adds one only
    when the first bit shifted out is set. *)
Lemma round_nearest_even_spec (mrs : shr_record) :
  let m1 := round_nearest_even (shr_m mrs) (loc_of_shr_record mrs) in
  m1 = shr_m mrs \/ (m1 = shr_m mrs + 1 /\ shr_r mrs = true).
Proof.
  destruct mrs as [m [|] [|]]; cbn; auto.
  destruct (Z.even m); auto.
Qed.

(** The shift of the rounding, for any amount [n]: nothing happens unless
    [n] is positive. *)
Lemma shr_spec (m e n : Z) :
  0 <= m ->
  exists mrs e',
    shr (Build_shr_record m false false) e n = (mrs, e') /\
    e' = e + Z.max 0 n /\
    shr_m mrs = m / 2 ^ Z.max 0 n /\
    (shr_r mrs = true -> 0 < n /\ 2 ^ (n - 1) <= m mod 2 ^ n).
Proof.
  intro Hm. destruct n as [| p | p].
  - exists (Build_shr_record m false false), e. cbn [shr shr_m shr_r].
    rewrite Z.max_id, Z.pow_0_r, Z.div_1_r.
    repeat split; try lia; discriminate.
  - destruct (shr_pos_spec m e p Hm) as (H1 & H2 & H3).
    exists (fst (shr (Build_shr_record m false false) e (Zpos p))),
           (snd (shr (Build_shr_record m false false) e (Zpos p))).
    rewrite <- surjective_pairing.
    replace (Z.max 0 (Zpos p)) with (Zpos p) by lia.
    repeat split; auto; lia.
  - exists (Build_shr_record m false false), e. cbn [shr shr_m shr_r].
    replace (Z.max 0 (Zneg p)) with 0 by lia.
    rewrite Z.pow_0_r, Z.div_1_r.
    repeat split; try lia; discriminate.
Qed.

Lemma pow2_pos (k : Z) : 0 <= k -> 0 < 2 ^ k.
Proof. intro; apply Z.pow_pos_nonneg; lia. Qed.

Lemma pow2_add (a b : Z) : 0 <= a -> 0 <= b -> 2 ^ (a + b) = 2 ^ a * 2 ^ b.
Proof. intros; apply Z.pow_add_r; lia. Qed.

(** The number of digits of a mantissa below a power of two. *)
Lemma Zdigits2_le (m k : Z) : 0 <= m -> 0 <= k -> m < 2 ^ k -> Zdigits2 m <= k.
Proof.
  intros Hm Hk Hlt. destruct m as [| p | p]; cbn [Zdigits2]; [lia | | lia].
  pose proof (digits2_bounds p) as [Hlo _].
  assert (H : 2 ^ (Zpos (digits2_pos p) - 1) < 2 ^ k) by lia.
  apply Z.pow_lt_mono_r_iff in H; lia.
Qed.

(** The integer part of a rounded product that lies below [L]. *)
Lemma trunc_finite_le (m2 e2 L : Z) :
  0 <= m2 -> e2 <= 0 -> 0 < L -> m2 <= L * 2 ^ (- e2) ->
  exists a,
    trunc match m2 with
          | Z0 => S754_zero false
          | Zpos m => if e2 <=? emax - prec then S754_finite false m e2
                      else S754_infinity false
          | Zneg _ => S754_nan
          end = Some a /\
    0 <= a <= L /\ (m2 < L * 2 ^ (- e2) -> a < L).
Proof.
  intros Hm He HL Hle.
  destruct m2 as [| p | p]; [| | lia].
  - exists 0. cbn. repeat split; lia.
  - assert (Hb : (e2 <=? emax - prec) = true) by (apply Z.leb_le; cbv [emax prec]; lia).
    rewrite Hb. cbn [trunc].
    pose proof (pow2_pos (- e2) ltac:(lia)) as HP.
    destruct (0 <=? e2) eqn:H0.
    + apply Z.leb_le in H0. assert (e2 = 0) by lia. subst e2.
      exists (Zpos p). change (- 0) with 0 in *.
      rewrite Z.pow_0_r in *. rewrite Z.mul_1_r. repeat split; lia.
    + exists (Zpos p / 2 ^ (- e2)). repeat split.
      * apply Z.div_pos; lia.
      * apply Z.div_le_upper_bound; lia.
      * intro Hlt. apply Z.div_lt_upper_bound; lia.
Qed.

(** Rounding the exact value [M * 2^E], known to be at most the integer
    [L < 2^24], never produces a float above [L]; and it stays below [L] when
    [M * 2^E <= L * (1 - 2^-24)]. *)
Lemma round_exact_le (M : positive) (E L : Z) :
  E <= 0 -> 0 < L < 2 ^ 24 -> Zpos M <= L * 2 ^ (- E) ->
  exists a,
    trunc (binary_round_aux prec emax false (Zpos M) E loc_Exact) = Some a /\
    0 <= a <= L /\
    (Zpos M * 2 ^ 24 <= L * 2 ^ (- E) * (2 ^ 24 - 1) -> a < L).
Proof.
  intros HE HL HM.
  unfold binary_round_aux, shr_fexp.
  cbn [shr_record_of_loc].
  set (d := Zdigits2 (Zpos M)).
  set (e1 := fexp prec emax (d + E)).
  pose proof (pow2_pos (- E) ltac:(lia)) as HPE.
  assert (Hd : d + E <= 24).
  { assert (Hd' : d <= 24 - E).
    { apply Zdigits2_le; try lia.
      replace (24 - E) with (24 + - E) by lia.
      rewrite pow2_add by lia. nia. }
    lia. }
  assert (He1 : e1 <= 0 /\ -149 <= e1 /\ (e1 = d + E - 24 \/ e1 = -149)).
  { unfold e1, fexp, emin, emax, prec. lia. }
  destruct (shr_spec (Zpos M) E (e1 - E) ltac:(lia)) as (mrs & e' & Heq & He' & Hm' & Hr).
  rewrite Heq.
  set (s := Z.max 0 (e1 - E)) in *.
  assert (Hs : 0 <= s) by lia.
  assert (He'0 : e' <= 0) by lia.
  pose proof (pow2_pos s Hs) as HPs.
  pose proof (pow2_pos (- e') ltac:(lia)) as HPe'.
  assert (Hsplit : 2 ^ (- E) = 2 ^ (- e') * 2 ^ s).
  { rewrite <- pow2_add by lia. f_equal. lia. }
  set (K := L * 2 ^ (- e')).
  assert (HMK : Zpos M <= K * 2 ^ s) by (unfold K; nia).
  assert (Hm'K : shr_m mrs <= K).
  { rewrite Hm'. apply Z.div_le_upper_bound; lia. }
  assert (Hm'0 : 0 <= shr_m mrs).
  { rewrite Hm'. apply Z.div_pos; lia. }
  pose proof (Z.div_mod (Zpos M) (2 ^ s) ltac:(lia)) as Hdm.
  pose proof (Z.mod_pos_bound (Zpos M) (2 ^ s) HPs) as Hmod.
  rewrite <- Hm' in Hdm.
  set (m1 := round_nearest_even (shr_m mrs) (loc_of_shr_record mrs)).
  assert (Hm1 : 0 <= m1 <= K /\
          (Zpos M * 2 ^ 24 <= L * 2 ^ (- E) * (2 ^ 24 - 1) -> m1 < K)).
  { destruct (round_nearest_even_spec mrs) as [H1 | [H1 Hr1]]; fold m1 in H1.
    - rewrite H1. split; [lia |]. intro Hst.
      assert (Zpos M < K * 2 ^ s) by (unfold K; nia).
      nia.
    - destruct (Hr Hr1) as [Hn Hhalf].
      assert (Hsn : s = e1 - E) by lia.
      rewrite <- Hsn in Hhalf.
      pose proof (pow2_pos (s - 1) ltac:(lia)) as HPs1.
      assert (H2s : 2 ^ s = 2 * 2 ^ (s - 1)).
      { replace s with (1 + (s - 1)) at 1 by lia. rewrite pow2_add by lia. lia. }
      split.
      + rewrite H1. split; [lia |]. nia.
      + intro Hst. rewrite H1.
        assert (Hlt : shr_m mrs < K) by nia.
        assert (HK : 2 ^ 23 < K \/ shr_m mrs + 1 < K).
        { destruct He1 as (_ & _ & [Hn1 | Hn1]).
          - (* normal range: the shifted mantissa has 24 digits *)
            left.
            assert (Hds : d = s + 24) by lia.
            pose proof (digits2_bounds M) as [Hlo _].
            assert (Hdd : Zpos (digits2_pos M) = s + 24) by (rewrite <- Hds; reflexivity).
            rewrite Hdd in Hlo.
            replace (s + 24 - 1) with (s + 23) in Hlo by lia.
            rewrite pow2_add in Hlo by lia.
            assert (2 ^ 23 <= shr_m mrs).
            { rewrite Hm'. apply Z.div_le_lower_bound; lia. }
            lia.
          - left. unfold K. rewrite Hn1 in *.
            assert (2 ^ 23 < 2 ^ (- e')).
            { apply Z.pow_lt_mono_r; lia. }
            nia. }
        destruct HK as [HK | HK]; [| lia].
        assert (shr_m mrs + 1 <> K); [| lia].
        intro HeqK.
        assert (Hst' : Zpos M * 2 ^ 24 <= K * 2 ^ s * (2 ^ 24 - 1)) by (unfold K; nia).
        assert (HMlo : K * 2 ^ s - 2 ^ (s - 1) <= Zpos M) by nia.
        nia. }
  destruct Hm1 as [[Hm1a Hm1b] Hm1c].
  destruct (shr_spec m1 e' (fexp prec emax (Zdigits2 m1 + e') - e') Hm1a)
    as (mrs2 & e2 & Heq2 & He2 & Hm2 & _).
  rewrite Heq2.
  set (s2 := Z.max 0 (fexp prec emax (Zdigits2 m1 + e') - e')) in *.
  assert (Hs2 : 0 <= s2) by lia.
  pose proof (pow2_pos s2 Hs2) as HPs2.
  assert (Hd1 : Zdigits2 m1 <= 24 - e').
  { apply Zdigits2_le; try lia.
    replace (24 - e') with (24 + - e') by lia.
    rewrite pow2_add by lia. unfold K in Hm1b. nia. }
  assert (He2' : e2 <= 0).
  { unfold s2, fexp, emin, emax, prec in *. lia. }
  pose proof (pow2_pos (- e2) ltac:(lia)) as HPe2.
  assert (Hsplit2 : 2 ^ (- e') = 2 ^ (- e2) * 2 ^ s2).
  { rewrite <- pow2_add by lia. f_equal. lia. }
  pose proof (Z.div_mod m1 (2 ^ s2) ltac:(lia)) as Hdm2.
  pose proof (Z.mod_pos_bound m1 (2 ^ s2) HPs2) as Hmod2.
  rewrite <- Hm2 in Hdm2.
  assert (Hm2a : 0 <= shr_m mrs2).
  { rewrite Hm2. apply Z.div_pos; lia. }
  assert (Hm2b : shr_m mrs2 <= L * 2 ^ (- e2)).
  { unfold K in Hm1b. nia. }
  destruct (trunc_finite_le (shr_m mrs2) e2 L Hm2a He2' ltac:(lia) Hm2b)
    as (a & Ha & Hab & Hast).
  exists a. split; [exact Ha | split; [exact Hab |]].
  intro Hst. apply Hast. specialize (Hm1c Hst). unfold K in Hm1c. nia.
Qed.
Lemma iter_xO_value (p k : positive) :
  Zpos (Pos.iter xO p k) = Zpos p * 2 ^ Zpos k.
Proof.
  induction k as [| k IH] using Pos.peano_ind.
  - cbn [Pos.iter]. rewrite Z.pow_1_r. lia.
  - rewrite Pos.iter_succ, Pos2Z.inj_xO, IH, Pos2Z.inj_succ, Z.pow_succ_r by lia. lia.
Qed.

Lemma iter_xO_digits (p k : positive) :
  Zpos (digits2_pos (Pos.iter xO p k)) = Zpos (digits2_pos p) + Zpos k.
Proof.
  induction k as [| k IH] using Pos.peano_ind.
  - cbn [Pos.iter digits2_pos]. lia.
  - rewrite Pos.iter_succ. cbn [digits2_pos]. rewrite Pos2Z.inj_succ, IH. lia.
Qed.

(** A mantissa that needs no shift is returned as it is. *)
Lemma binary_round_aux_id (s : bool) (m : positive) (e : Z) :
  fexp prec emax (Zpos (digits2_pos m) + e) <= e -> e <= emax - prec ->
  binary_round_aux prec emax s (Zpos m) e loc_Exact = S754_finite s m e.
Proof.
  intros Hf He. unfold binary_round_aux, shr_fexp. cbn [shr_record_of_loc Zdigits2].
  assert (Hshr : shr (Build_shr_record (Zpos m) false false) e
                   (fexp prec emax (Zpos (digits2_pos m) + e) - e)
                 = (Build_shr_record (Zpos m) false false, e)).
  { destruct (fexp prec emax (Zpos (digits2_pos m) + e) - e) eqn:Hn;
      [reflexivity | lia | reflexivity]. }
  rewrite Hshr. cbn [shr_m loc_of_shr_record round_nearest_even shr_record_of_loc Zdigits2].
  rewrite Hshr. cbn [shr_m].
  apply Z.leb_le in He. rewrite He. reflexivity.
Qed.

(** An [int] below [2^24] converts to [float] without rounding. *)
Lemma of_int_exact (L : Z) :
  0 < L < 2 ^ 24 ->
  exists mx ex,
    of_int L = S754_finite false mx ex /\ ex <= 0 /\ Zpos mx = L * 2 ^ (- ex).
Proof.
  intros HL. destruct L as [| p | p]; try lia.
  unfold of_int, binary_normalize, binary_round, shl_align.
  set (d := Zpos (digits2_pos p)).
  assert (Hd : 0 < d <= 24).
  { split; [unfold d; lia |].
    apply (Zdigits2_le (Zpos p) 24); lia. }
  assert (Hf : fexp prec emax (d + 0) = d - 24).
  { unfold fexp, emin, emax, prec. lia. }
  rewrite Hf.
  destruct (d - 24 - 0) as [| k | k] eqn:Hk; try lia.
  - exists p, 0. split; [| split; [lia | rewrite Z.pow_0_r; lia]].
    apply binary_round_aux_id;
      [change (Zpos (digits2_pos p)) with d; rewrite Hf; lia | unfold emax, prec; lia].
  - exists (Pos.iter xO p k), (d - 24). split; [| split; [lia |]].
    + apply binary_round_aux_id; [| unfold emax, prec; lia].
      rewrite iter_xO_digits. fold d. unfold fexp, emin, emax, prec. lia.
    + rewrite iter_xO_value. f_equal. f_equal. lia.
Qed.
Lemma one_eq : one = S754_finite false 8388608 (-23).
Proof. vm_compute. reflexivity. Qed.

(** A valid float in [0, 1]: its shape. *)
Lemma unit_interval_shape (D : float) :
  valid D = true -> leb zero D = true -> leb D one = true ->
  (exists s, D = S754_zero s) \/
  (exists my ey, D = S754_finite false my ey /\ ey <= -23 /\
     Zpos my <= 2 ^ (- ey) /\
     (ltb D one = true -> Zpos my * 2 ^ 24 <= (2 ^ 24 - 1) * 2 ^ (- ey))).
Proof.
  intros Hv H0 H1.
  destruct D as [s | s | | s my ey].
  - left. now exists s.
  - destruct s; discriminate.
  - discriminate.
  - right. destruct s; [discriminate |].
    exists my, ey. split; [reflexivity |].
    unfold valid, valid_binary, bounded, canonical_mantissa in Hv.
    apply andb_prop in Hv. destruct Hv as [Hc _]. apply Z.eqb_eq in Hc.
    pose proof (digits2_bounds my) as [Hlo Hhi].
    set (d := Zpos (digits2_pos my)) in *.
    assert (Hd : d <= 24) by (unfold fexp, emin, emax, prec in Hc; lia).
    assert (Hmy : Zpos my < 2 ^ 24).
    { apply Z.lt_le_trans with (1 := Hhi). apply Z.pow_le_mono_r; lia. }
    unfold leb, SFleb in H1. rewrite one_eq in H1. cbn [SFcompare] in H1.
    unfold ltb, SFltb. rewrite one_eq. cbn [SFcompare].
    destruct (ey ?= -23) eqn:Hcmp.
    + apply Z.compare_eq in Hcmp. subst ey.
      assert (Hd24 : d = 24) by (unfold fexp, emin, emax, prec in Hc; lia).
      rewrite Hd24 in Hlo. change (2 ^ (24 - 1)) with 8388608 in Hlo.
      destruct (Pos.compare_cont Eq my 8388608) eqn:Hc2; try discriminate.
      * apply (Pos.compare_eq my 8388608) in Hc2. subst my.
        split; [lia | split; [| discriminate]].
        change (2 ^ (- -23)) with 8388608. lia.
      * apply (proj1 (Pos.compare_lt_iff my 8388608)) in Hc2.
        apply Pos2Z.pos_lt_pos in Hc2. exfalso. clear - Hc2 Hlo. lia.
    + assert (Hlt23 : ey < -23) by exact Hcmp.
      assert (Hp : 2 ^ 24 <= 2 ^ (- ey)) by (apply Z.pow_le_mono_r; lia).
      split; [lia | split; [lia |]]. intros _.
      clear - Hmy Hp. change (2 ^ 24) with 16777216 in *.
      set (P := 2 ^ (- ey)) in *. nia.
    + discriminate.
Qed.
(** [int(float(L) * D)] for [0 <= L < 2^24] and [D] in [0, 1]: defined, at most [L],
    and below [L] when [D < 1] and [L > 0]. *)
Lemma mul_of_int_le (L : Z) (D : float) :
  0 <= L < 2 ^ 24 ->
  valid D = true -> leb zero D = true -> leb D one = true ->
  exists a,
    to_int (mul (of_int L) D) = Ok a /\
    0 <= a <= L /\
    (ltb D one = true -> 0 < L -> a < L).
Proof.
  intros HL Hv H0 H1.
  assert (Hok : forall a, 0 <= a <= L -> in_int a = true).
  { intros a Ha. unfold in_int, INT_MIN, INT_MAX.
    apply andb_true_intro; split; apply Z.leb_le; lia. }
  destruct (Z.eq_dec L 0) as [-> | HL0].
  - exists 0. split; [| lia].
    destruct (unit_interval_shape D Hv H0 H1) as [[s ->] | (my & ey & -> & _)];
      reflexivity.
  - destruct (of_int_exact L ltac:(lia)) as (mx & ex & Hof & Hex & Hmx).
    rewrite Hof.
    destruct (unit_interval_shape D Hv H0 H1)
      as [[s ->] | (my & ey & -> & Hey & Hmy & Hlt)].
    + exists 0. split; [reflexivity | lia].
    + unfold mul, SFmul. cbn [xorb].
      pose proof (pow2_pos (- ex) ltac:(lia)) as HPx.
      pose proof (pow2_pos (- ey) ltac:(lia)) as HPy.
      assert (Hsplit : 2 ^ (- (ex + ey)) = 2 ^ (- ex) * 2 ^ (- ey)).
      { rewrite <- pow2_add by lia. f_equal. lia. }
      destruct (round_exact_le (mx * my) (ex + ey) L ltac:(lia) ltac:(lia))
        as (a & Ha & Hab & Hast).
      { rewrite Pos2Z.inj_mul, Hsplit, Hmx. nia. }
      exists a. unfold to_int. rewrite Ha, (Hok a Hab).
      split; [reflexivity | split; [exact Hab |]].
      intros Hltb _. apply Hast.
      specialize (Hlt Hltb).
      rewrite Pos2Z.inj_mul, Hsplit, Hmx. nia.
Qed.
End Float32_facts.

(* ===================================================================== *)
(** * MixedAI: what the calls keep and what they change *)
(* ===================================================================== *)

Module MixedAI_facts.

Import Elf MixedAI.

Section Facts.
Context {E : Engine}.

(** Splitting a successful [bind]. *)
Lemma bind_Ok {A B} (c : result A) (k : A -> result B) (b : B) :
  Cxx.bind c k = Ok b -> exists a, c = Ok a /\ k a = Ok b.
Proof. destruct c; simpl; intro H; try discriminate. eauto. Qed.

Lemma same_curriculum_refl (m : object) : same_curriculum m m.
Proof. now constructor. Qed.

Lemma same_curriculum_trans (m1 m2 m3 : object) :
  same_curriculum m1 m2 -> same_curriculum m2 m3 -> same_curriculum m1 m3.
Proof. intros [] []; constructor; congruence. Qed.

Lemma on_set_id_same (m : object) : same_curriculum m (on_set_id m).
Proof.
  destruct m as [b0 bk mn th g ls dc].
  unfold on_set_id. destruct bk, mn; constructor; reflexivity.
Qed.

Lemma SetId_same (x : Z) (m : object) : same_curriculum m (SetId x m).
Proof.
  unfold SetId.
  eapply same_curriculum_trans; [| apply on_set_id_same].
  now constructor.
Qed.

(** [SetState] always returns: the reference it reads back was just stored. *)
Lemma SetState_Ok (y : RTSState) (m : object) :
  SetState y m =
  Ok (let m0 := with_base (AI_T_set_state y (AI_base m)) m in
      let m1 := match _backup_ai m0 with
                | Some b => with_backup_ai (Some (Elf.SetState y b)) m0
                | None => m0
                end in
      match _main_ai m1 with
      | Some a => with_main_ai (Some (Elf.SetState y a)) m1
      | None => m1
      end).
Proof.
  destruct m as [b0 bk mn th g ls dc].
  unfold SetState, on_set_state, s, s_ptr.
  destruct bk, mn; reflexivity.
Qed.

Lemma SetState_same (y : RTSState) (m m' : object) :
  SetState y m = Ok m' -> same_curriculum m m'.
Proof.
  rewrite SetState_Ok. intro H. inversion H; subst; clear H.
  destruct m as [b0 bk mn th g ls dc].
  destruct bk, mn; constructor; reflexivity.
Qed.

Lemma SetMainAI_same (a : option AI) (m m' : object) :
  SetMainAI a m = Ok m' -> same_curriculum m m'.
Proof.
  unfold SetMainAI. destruct a as [a |]; cbn; [| discriminate].
  intro H. inversion H; subst. now constructor.
Qed.

Lemma on_act_same (t : Tick) (a : RTSMCAction) (done : atomic_bool) (m : object)
    (r : bool * RTSMCAction * object) :
  on_act t a done m = Ok r -> same_curriculum m (snd r).
Proof.
  unfold on_act, Act_backup, Act_main.
  destruct (backup_acts m t).
  - destruct (_backup_ai m) as [b |] eqn:Hb; cbn; [| discriminate].
    destruct (Elf.Act t a done b) as [[res a'] b'].
    intro H. inversion H; subst. constructor; cbn; rewrite ?Hb; reflexivity.
  - destruct (_main_ai m) as [b |] eqn:Hb; cbn; [| discriminate].
    destruct (Elf.Act t a done b) as [[res a'] b'].
    intro H. inversion H; subst. now constructor.
Qed.

(** Every call but [GameEnd] leaves the curriculum alone. *)
Lemma exec_same (c : call) (m m' : object) :
  is_GameEnd c = false -> exec c m = Ok m' -> same_curriculum m m'.
Proof.
  destruct c as [a | x | y | t a done | t]; cbn [exec is_GameEnd]; intros Hc H;
    try discriminate.
  - eapply SetMainAI_same; eauto.
  - inversion H; subst. apply SetId_same.
  - eapply SetState_same; eauto.
  - apply bind_Ok in H. destruct H as ([[res a'] m1] & H1 & H2).
    inversion H2; subst. apply (on_act_same _ _ _ _ _ H1).
Qed.

Lemma run_same (cs : list call) (m m' : object) :
  forallb (fun c => negb (is_GameEnd c)) cs = true ->
  run cs m = Ok m' -> same_curriculum m m'.
Proof.
  revert m. induction cs as [| c cs IH]; intros m Hcs H.
  - inversion H; subst. apply same_curriculum_refl.
  - cbn [forallb] in Hcs. apply andb_prop in Hcs. destruct Hcs as [Hc Hcs].
    cbn [run] in H. apply bind_Ok in H. destruct H as (m1 & H1 & H2).
    apply negb_true_iff in Hc.
    eapply same_curriculum_trans; [eapply exec_same | eapply IH]; eauto.
Qed.

(** *** The constructor *)

Lemma configure_configured (opt : AIOptions) (m m' : object)
    (out out' : list string) (kv : string * string) :
  configure opt (m, out) kv = Ok (m', out') -> configured m m'.
Proof.
  destruct kv as [k v]. unfold configure.
  destruct (String.eqb k "start").
  { intro H. apply bind_Ok in H. destruct H as (n & _ & H).
    inversion H; subst. now constructor. }
  destruct (String.eqb k "decay").
  { intro H. apply bind_Ok in H. destruct H as (n & _ & H).
    inversion H; subst. now constructor. }
  destruct (String.eqb k "backup").
  { destruct (_ || _); [| destruct (_ || _)];
      intro H; inversion H; subst; now constructor. }
  intro H; inversion H; subst; now constructor.
Qed.

Lemma configure_all_configured (opt : AIOptions) (kvs : Std.map) (m m' : object)
    (out out' : list string) :
  configure_all opt kvs (m, out) = Ok (m', out') -> configured m m'.
Proof.
  revert m out. induction kvs as [| kv kvs IH]; intros m out H.
  - inversion H; subst. now constructor.
  - cbn [configure_all] in H. apply bind_Ok in H.
    destruct H as ([m1 out1] & H1 & H2).
    apply configure_configured in H1. apply IH in H2.
    destruct H1, H2. constructor; congruence.
Qed.

(** The backup agent after the loop: the one the object had, unless an
    entry [backup] names one of the two known agents. *)
Lemma configure_all_backup (opt : AIOptions) (kvs : Std.map) (m m' : object)
    (out out' : list string) :
  configure_all opt kvs (m, out) = Ok (m', out') ->
  let opt2 := AIOptions_with_fs AIOptions_default (fs opt) in
  (_backup_ai m' = _backup_ai m \/
   _backup_ai m' = Some (new SimpleAI opt2) \/
   _backup_ai m' = Some (new HitAndRunAI opt2)) /\
  ((forall v, In ("backup"%string, v) kvs -> Curriculum.backup_known v = false) ->
   _backup_ai m' = _backup_ai m).
Proof.
  cbv zeta. revert m out. induction kvs as [| [k v] kvs IH]; intros m out H.
  - inversion H; subst. auto.
  - cbn [configure_all] in H. apply bind_Ok in H.
    destruct H as ([m1 out1] & H1 & H2).
    destruct (IH _ _ H2) as [IHa IHb]. clear IH.
    assert (Hstep :
      (_backup_ai m1 = _backup_ai m \/
       (k = "backup"%string /\ Curriculum.backup_known v = true /\
        (_backup_ai m1 = Some (new SimpleAI (AIOptions_with_fs AIOptions_default (fs opt))) \/
         _backup_ai m1 = Some (new HitAndRunAI (AIOptions_with_fs AIOptions_default (fs opt))))))).
    { unfold configure in H1.
      destruct (String.eqb k "start").
      { apply bind_Ok in H1. destruct H1 as (n & _ & H1). inversion H1; subst. now left. }
      destruct (String.eqb k "decay").
      { apply bind_Ok in H1. destruct H1 as (n & _ & H1). inversion H1; subst. now left. }
      destruct (String.eqb_spec k "backup") as [-> |].
      - unfold Curriculum.backup_known.
        destruct (String.eqb v "AI_SIMPLE" || String.eqb v "ai_simple") eqn:H1s.
        { inversion H1; subst. right. cbn. auto. }
        destruct (String.eqb v "AI_HIT_AND_RUN" || String.eqb v "ai_hit_and_run") eqn:H2s.
        { inversion H1; subst. right.
          split; [reflexivity | split; [| cbn; auto]].
          cbn [orb]. exact H2s. }
        inversion H1; subst. now left.
      - inversion H1; subst. now left. }
    split.
    + destruct IHa as [IHa | IHa]; [| now right].
      rewrite IHa. destruct Hstep as [-> | (_ & _ & Hs)]; auto.
    + intro Hall. rewrite IHb by (intros v' Hin; apply Hall; now right).
      destruct Hstep as [-> | (-> & Hk & _)]; [reflexivity |].
      rewrite (Hall v) in Hk by now left. discriminate.
Qed.

Lemma bind_backup_configured (m : object) : configured m (bind_backup m).
Proof. unfold bind_backup. destruct (_backup_ai m); now constructor. Qed.

Lemma bind_backup_class (m : object) :
  option_map class (_backup_ai (bind_backup m)) = option_map class (_backup_ai m).
Proof.
  unfold bind_backup. destruct (_backup_ai m) as [b |] eqn:Hb; [| now rewrite Hb].
  cbn. destruct (s_ptr m); reflexivity.
Qed.

(** A freshly constructed object: no main agent, threshold [0]. *)
Lemma MixedAI_fresh (now : Z) (opt : AIOptions) (m : object) (out : list string) :
  MixedAI now opt = Ok (m, out) ->
  _main_ai m = None /\ _backup_ai_tick_thres m = 0 /\
  id m = no_id /\ s_ptr m = None.
Proof.
  unfold MixedAI. intro H. apply bind_Ok in H.
  destruct H as ([m1 out1] & H1 & H2). inversion H2; subst; clear H2.
  unfold id, s_ptr.
  cbn [_main_ai _backup_ai_tick_thres with_rng AI_base].
  destruct (negb (String.eqb (args opt) "")).
  - apply bind_Ok in H1. destruct H1 as ([m2 out2] & H1 & H2).
    inversion H2; subst; clear H2.
    apply configure_all_configured in H1.
    pose proof (bind_backup_configured m2) as H2.
    destruct H1 as [b1 mn1 th1 _], H2 as [b2 mn2 th2 _].
    repeat split;
      [rewrite mn2, mn1 | rewrite th2, th1 | rewrite b2, b1 | rewrite b2, b1];
      reflexivity.
  - inversion H1; subst. repeat split.
Qed.

(** The backup agent of a constructed object. *)
Lemma MixedAI_backup (now : Z) (opt : AIOptions) (m : object) (out : list string) :
  MixedAI now opt = Ok (m, out) ->
  (forall b, _backup_ai m = Some b -> class b = SimpleAI \/ class b = HitAndRunAI) /\
  ((forall v, In ("backup"%string, v) (_parse (args opt)) ->
              Curriculum.backup_known v = false) ->
   _backup_ai m = None).
Proof.
  unfold MixedAI. intro H. apply bind_Ok in H.
  destruct H as ([m1 out1] & H1 & H2). inversion H2; subst; clear H2.
  cbn [_backup_ai with_rng].
  destruct (negb (String.eqb (args opt) "")).
  - apply bind_Ok in H1. destruct H1 as ([m2 out2] & H1 & H2).
    inversion H2; subst; clear H2.
    destruct (configure_all_backup _ _ _ _ _ _ H1) as [Ha Hb].
    cbn [_backup_ai initial] in Ha, Hb.
    pose proof (bind_backup_class m2) as Hc.
    split.
    + intros b Hb'. rewrite Hb' in Hc. cbn in Hc.
      destruct Ha as [Ha | [Ha | Ha]]; rewrite Ha in Hc; cbn in Hc;
        [discriminate | left | right]; congruence.
    + intro Hall. specialize (Hb Hall). rewrite Hb in Hc.
      destruct (_backup_ai (bind_backup m2)); [discriminate | reflexivity].
  - inversion H1; subst. cbn. split; [discriminate | reflexivity].
Qed.

(** No call installs a backup agent. *)
Lemma run_backup_set (cs : list call) (m m' : object) :
  run cs m = Ok m' -> not_null (_backup_ai m') = not_null (_backup_ai m).
Proof.
  revert m. induction cs as [| c cs IH]; intros m H.
  - now inversion H.
  - cbn [run] in H. apply bind_Ok in H. destruct H as (m1 & H1 & H2).
    rewrite (IH _ H2). clear IH H2.
    destruct (is_GameEnd c) eqn:Hc.
    + destruct c; try discriminate. cbn [exec] in H1.
      apply bind_Ok in H1. destruct H1 as ([res m2] & H1 & H2).
      inversion H2; subst; clear H2.
      unfold GameEnd, AI_GameEnd in H1.
      apply bind_Ok in H1. destruct H1 as (main & _ & H1).
      destruct (Elf.GameEnd t main) as [r main'].
      apply bind_Ok in H1. destruct H1 as (m2 & H2 & H1).
      apply bind_Ok in H1. destruct H1 as (m3 & H3 & H1).
      inversion H1; subst; clear H1.
      unfold decay_latest_start in H2. apply bind_Ok in H2.
      destruct H2 as (n & _ & H2). inversion H2; subst; clear H2.
      unfold sample_tick_thres in H3.
      destruct (mt19937_next _) as [r0 g].
      destruct (_ =? INT_MAX); [discriminate |].
      destruct (_ =? 0); [discriminate |].
      inversion H3; subst. reflexivity.
    + apply (same_backup_set _ _ (exec_same _ _ _ Hc H1)).
Qed.

End Facts.

End MixedAI_facts.

(* ===================================================================== *)
(** * Delegation *)
(* ===================================================================== *)

Module Delegation.

Import Elf MixedAI MixedAI_facts.

Section Delegation.
Context {E : Engine}.

Lemma backup_acts_true (m : object) (t : Tick) :
  backup_acts m t = true <->
  (exists b, _backup_ai m = Some b) /\ t < _backup_ai_tick_thres m.
Proof.
  unfold backup_acts. rewrite andb_true_iff, Z.ltb_lt.
  destruct (_backup_ai m) as [b |]; cbn; split.
  - intros [_ H]. eauto.
  - intros [_ H]. auto.
  - intros [H _]. discriminate.
  - intros [[b H] _]. discriminate.
Qed.

Lemma backup_acts_false (m : object) (t : Tick) :
  backup_acts m t = false <->
  _backup_ai m = None \/ _backup_ai_tick_thres m <= t.
Proof.
  unfold backup_acts. rewrite andb_false_iff, Z.ltb_ge.
  destruct (_backup_ai m) as [b |]; cbn; split; intros [H | H]; auto; discriminate.
Qed.

(** C3.  [on_act] hands the tick to the backup agent, and returns what it
    returns, exactly when a backup agent exists and [t] is below the
    threshold; in every other case it hands the tick to the main agent and
    returns what that returns.  An object constructed from arguments in which
    no [backup] entry names a known agent has no backup agent, then and after
    any run of calls, so each of its ticks goes to the main agent. *)
Theorem on_act_delegation (t : Tick) (a : RTSMCAction) (done : atomic_bool)
    (m : object) :
  (forall b, _backup_ai m = Some b -> t < _backup_ai_tick_thres m ->
     on_act t a done m = Act_backup t a done m /\
     on_act t a done m =
       Ok (let '(res, a', b') := Elf.Act t a done b in
           (res, a', with_backup_ai (Some b') m))) /\
  (_backup_ai m = None \/ _backup_ai_tick_thres m <= t ->
     on_act t a done m = Act_main t a done m /\
     forall main, _main_ai m = Some main ->
       on_act t a done m =
         Ok (let '(res, a', b') := Elf.Act t a done main in
             (res, a', with_main_ai (Some b') m))) /\
  (forall now opt m0 out cs,
     MixedAI now opt = Ok (m0, out) ->
     (forall v, In ("backup"%string, v) (_parse (args opt)) ->
                Curriculum.backup_known v = false) ->
     run cs m0 = Ok m ->
     _backup_ai m = None /\ on_act t a done m = Act_main t a done m).
Proof.
  split; [| split].
  - intros b Hb Ht.
    assert (Hc : backup_acts m t = true) by (apply backup_acts_true; eauto).
    unfold on_act. rewrite Hc. split; [reflexivity |].
    unfold Act_backup. rewrite Hb. cbn.
    destruct (Elf.Act t a done b) as [[res a'] b']. reflexivity.
  - intros Hno. apply backup_acts_false in Hno.
    unfold on_act. rewrite Hno. split; [reflexivity |].
    intros main Hm. unfold Act_main. rewrite Hm. cbn.
    destruct (Elf.Act t a done main) as [[res a'] b']. reflexivity.
  - intros now opt m0 out cs Hnew Hall Hrun.
    destruct (MixedAI_backup _ _ _ _ Hnew) as [_ Hnone].
    specialize (Hnone Hall).
    pose proof (run_backup_set _ _ _ Hrun) as Hset.
    rewrite Hnone in Hset. cbn in Hset.
    assert (Hb : _backup_ai m = None) by (destruct (_backup_ai m); [discriminate | reflexivity]).
    split; [exact Hb |].
    unfold on_act, backup_acts. rewrite Hb. reflexivity.
Qed.

(** C4.  Between two [GameEnd] calls the threshold and the presence of the
    backup agent do not change, so a tick that went to the main agent is
    never followed, later in the episode, by a tick that goes to the backup
    agent. *)
Theorem delegation_never_reverts (cs : list call) (m m' : object) (t1 t2 : Tick) :
  forallb (fun c => negb (is_GameEnd c)) cs = true ->
  run cs m = Ok m' ->
  t1 < t2 ->
  backup_acts m t1 = false ->
  backup_acts m' t2 = false /\
  _backup_ai_tick_thres m' = _backup_ai_tick_thres m.
Proof.
  intros Hcs Hrun Hlt H1.
  destruct (run_same _ _ _ Hcs Hrun) as [Hth _ _ _ Hset].
  split; [| exact Hth].
  unfold backup_acts in *. rewrite Hset, Hth.
  apply andb_false_iff in H1. apply andb_false_iff.
  destruct H1 as [H1 | H1]; [now left | right].
  apply Z.ltb_ge in H1. apply Z.ltb_ge. lia.
Qed.

(** C6.  With no main agent installed, a tick that is not for the backup
    agent dereferences the empty [_main_ai]: the call does not return.  A
    constructed object has no main agent until [SetMainAI] is called. *)
Theorem on_act_without_main_is_fatal (t : Tick) (a : RTSMCAction)
    (done : atomic_bool) (m : object) :
  _main_ai m = None ->
  backup_acts m t = false ->
  on_act t a done m = Crash null_dereference /\
  returns (on_act t a done m) = false.
Proof.
  intros Hm Hb. unfold on_act, Act_main. rewrite Hb, Hm. cbn. split; reflexivity.
Qed.

(** C9, as the code has it.  The threshold of a constructed object is [0]
    and only [GameEnd] assigns it: until the first [GameEnd], whatever
    [start] was configured and whatever calls were made, every tick
    [t >= 0] goes to the main agent.  A tick [t < 0] is below the threshold
    [0]: it goes to the backup agent when one was configured, and to the
    main agent otherwise. *)
Theorem first_episode_delegates_to_main (now : Z) (opt : AIOptions)
    (m0 m : object) (out : list string) (cs : list call)
    (t : Tick) (a : RTSMCAction) (done : atomic_bool) :
  MixedAI now opt = Ok (m0, out) ->
  forallb (fun c => negb (is_GameEnd c)) cs = true ->
  run cs m0 = Ok m ->
  _backup_ai_tick_thres m = 0 /\
  (0 <= t ->
   backup_acts m t = false /\
   on_act t a done m = Act_main t a done m) /\
  (t < 0 ->
   backup_acts m t = not_null (_backup_ai m0) /\
   on_act t a done m =
     (if not_null (_backup_ai m0) then Act_backup t a done m
      else Act_main t a done m)).
Proof.
  intros Hnew Hcs Hrun.
  destruct (MixedAI_fresh _ _ _ _ Hnew) as (_ & Hth0 & _).
  destruct (run_same _ _ _ Hcs Hrun) as [Hth _ _ _ Hset].
  rewrite Hth0 in Hth.
  split; [exact Hth | split].
  - intro Ht.
    assert (Hb : backup_acts m t = false).
    { apply backup_acts_false. right. lia. }
    split; [exact Hb |].
    unfold on_act. rewrite Hb. reflexivity.
  - intro Ht.
    assert (Hb : backup_acts m t = not_null (_backup_ai m0)).
    { unfold backup_acts. rewrite Hset, Hth.
      assert (Hlt : (t <? 0) = true) by (apply Z.ltb_lt; exact Ht).
      rewrite Hlt. apply andb_true_r. }
    split; [exact Hb |].
    unfold on_act. rewrite Hb. reflexivity.
Qed.

End Delegation.

End Delegation.

(* ===================================================================== *)
(** * Binding of identity and state *)
(* ===================================================================== *)

Module Binding.

Import Elf MixedAI MixedAI_facts.

Section Binding.
Context {E : Engine}.

Ltac bound_cases :=
  repeat split;
  try reflexivity;
  try match goal with
      | H : Some _ = Some _ |- _ => inversion H; subst; reflexivity
      | H : None = Some _ |- _ => discriminate H
      end;
  try (intro; do 2 eexists; repeat split; reflexivity).

(** C7.  After [SetId(X)] and [SetState(Y)], in either order, the object and
    each sub-agent it holds report [X] and [Y]; both calls return; and a main
    agent installed afterwards with [SetMainAI] reports them as well, the
    backup agent being left as it was. *)
Theorem SetId_SetState_reach_sub_agents (X : Z) (Y : RTSState) (m : object) :
  (exists m',
     SetState Y (SetId X m) = Ok m' /\
     id m' = X /\ s_ptr m' = Some Y /\
     bound X Y (_backup_ai m') /\ bound X Y (_main_ai m') /\
     not_null (_backup_ai m') = not_null (_backup_ai m) /\
     not_null (_main_ai m') = not_null (_main_ai m) /\
     forall main, exists m'' a,
       SetMainAI (Some main) m' = Ok m'' /\
       _main_ai m'' = Some a /\ Elf.id a = X /\ Elf.s_ptr a = Some Y /\
       class a = class main /\
       _backup_ai m'' = _backup_ai m') /\
  (exists m1,
     SetState Y m = Ok m1 /\
     id (SetId X m1) = X /\ s_ptr (SetId X m1) = Some Y /\
     bound X Y (_backup_ai (SetId X m1)) /\ bound X Y (_main_ai (SetId X m1)) /\
     forall main, exists m'' a,
       SetMainAI (Some main) (SetId X m1) = Ok m'' /\
       _main_ai m'' = Some a /\ Elf.id a = X /\ Elf.s_ptr a = Some Y /\
       class a = class main /\
       _backup_ai m'' = _backup_ai (SetId X m1)).
Proof.
  destruct m as [b0 bk mn th g ls dc].
  split.
  - eexists. split; [apply SetState_Ok |].
    unfold bound.
    destruct bk as [b |], mn as [a0 |]; cbn; bound_cases.
  - eexists. split; [apply SetState_Ok |].
    unfold bound.
    destruct bk as [b |], mn as [a0 |]; cbn; bound_cases.
Qed.

End Binding.

End Binding.

(* ===================================================================== *)
(** * The end of an episode *)
(* ===================================================================== *)

Module Episode.

Import Elf MixedAI MixedAI_facts Float32_facts.

Section Episode.
Context {E : Engine}.

Lemma wrap_int_small (x : Z) : - 2 ^ 31 <= x < 2 ^ 31 -> wrap_int x = x.
Proof.
  intro H. unfold wrap_int.
  change (2 ^ 31) with 2147483648 in *. change (2 ^ 32) with 4294967296.
  rewrite Z.mod_small; lia.
Qed.

Lemma to_uint_fast32_small (x : Z) : 0 <= x < 2 ^ 31 -> to_uint_fast32 x = x.
Proof.
  intro H. unfold to_uint_fast32, uint_fast32_bits.
  change (2 ^ 31) with 2147483648 in *.
  change (2 ^ 64) with 18446744073709551616.
  rewrite Z.mod_small; lia.
Qed.

Lemma rounded_nonneg (n : Z) : 0 <= n -> Z.quot (2 * n + 1) 2 = n.
Proof.
  intro H. rewrite Z.quot_div_nonneg by lia.
  symmetry. apply Z.div_unique with (r := 1); lia.
Qed.

(** What a returning [GameEnd] did, step by step. *)
Lemma GameEnd_inv (t : Tick) (m m' : object) (r : bool) :
  GameEnd t m = Ok (r, m') ->
  exists main n r0 g,
    _main_ai m = Some main /\
    r = fst (Elf.GameEnd t main) /\
    times_decay (_latest_start_decay m) (_latest_start m) = Ok n /\
    mt19937_next (_rng m) = (r0, g) /\
    m' = {| AI_base := AI_base m;
            _backup_ai := _backup_ai m;
            _main_ai := Some (snd (Elf.GameEnd t main));
            _backup_ai_tick_thres :=
              wrap_int (r0 mod to_uint_fast32 (Z.quot (2 * n + 1) 2 + 1));
            _rng := g;
            _latest_start := n;
            _latest_start_decay := _latest_start_decay m |}.
Proof.
  unfold GameEnd, AI_GameEnd. intro H.
  apply bind_Ok in H. destruct H as (main & Hm & H).
  destruct (_main_ai m) as [main0 |] eqn:Hmain; [| discriminate].
  cbn in Hm. inversion Hm; subst main0; clear Hm.
  destruct (Elf.GameEnd t main) as [res main'] eqn:Hge.
  apply bind_Ok in H. destruct H as (m2 & H2 & H).
  apply bind_Ok in H. destruct H as (m3 & H3 & H).
  inversion H; subst r m3; clear H.
  unfold decay_latest_start in H2. apply bind_Ok in H2.
  destruct H2 as (n & Hn & H2). inversion H2; subst m2; clear H2.
  cbn [_latest_start_decay _latest_start with_main_ai] in Hn.
  unfold sample_tick_thres, rounded_latest_start in H3.
  cbn [_rng _latest_start with_latest_start with_main_ai] in H3.
  destruct (mt19937_next (_rng m)) as [r0 g] eqn:Hr.
  destruct (_ =? INT_MAX); [discriminate |].
  destruct (_ =? 0); [discriminate |].
  inversion H3; subst m'; clear H3.
  exists main, n, r0, g. rewrite Hge. cbn [fst snd].
  repeat split; try reflexivity; auto.
Qed.

(** [GameEnd] returns whenever a main agent is installed and the decayed
    start is a small non-negative number. *)
Lemma GameEnd_Ok (t : Tick) (m : object) (main : AI) (n : Z) :
  _main_ai m = Some main ->
  times_decay (_latest_start_decay m) (_latest_start m) = Ok n ->
  0 <= n < 2 ^ 24 ->
  exists m', GameEnd t m = Ok (fst (Elf.GameEnd t main), m') /\
             0 <= _backup_ai_tick_thres m' <= n.
Proof.
  intros Hmain Hn Hr.
  unfold GameEnd, AI_GameEnd. rewrite Hmain. cbn [deref Cxx.bind].
  destruct (Elf.GameEnd t main) as [res main'].
  unfold decay_latest_start.
  cbn [_latest_start_decay _latest_start with_main_ai]. rewrite Hn.
  cbn [Cxx.bind].
  unfold sample_tick_thres, rounded_latest_start.
  cbn [_rng _latest_start with_latest_start with_main_ai].
  destruct (mt19937_next (_rng m)) as [r0 g].
  rewrite rounded_nonneg by lia.
  change (2 ^ 24) with 16777216 in Hr.
  assert (H1 : (n =? INT_MAX) = false).
  { apply Z.eqb_neq. unfold INT_MAX. change (2 ^ 31) with 2147483648. lia. }
  assert (H2 : to_uint_fast32 (n + 1) = n + 1).
  { apply to_uint_fast32_small. change (2 ^ 31) with 2147483648. lia. }
  assert (H3 : (n + 1 =? 0) = false) by (apply Z.eqb_neq; lia).
  rewrite H1, H2, H3. cbn [Cxx.bind fst].
  eexists. split; [reflexivity |].
  cbn [_backup_ai_tick_thres with_backup_ai_tick_thres].
  pose proof (Z.mod_pos_bound r0 (n + 1) ltac:(lia)) as Hmod.
  rewrite wrap_int_small; [lia |].
  change (2 ^ 31) with 2147483648. lia.
Qed.

(** The invariant of the curriculum after [j] episodes started with [S] and
    [D]. *)
Lemma GameEnd_step (t : Tick) (m m' : object) (r : bool) :
  0 <= _latest_start m < 2 ^ 24 ->
  Float32.valid (_latest_start_decay m) = true ->
  Float32.leb Float32.zero (_latest_start_decay m) = true ->
  Float32.leb (_latest_start_decay m) Float32.one = true ->
  GameEnd t m = Ok (r, m') ->
  _latest_start_decay m' = _latest_start_decay m /\
  times_decay (_latest_start_decay m) (_latest_start m) = Ok (_latest_start m') /\
  0 <= _latest_start m' <= _latest_start m /\
  0 <= _backup_ai_tick_thres m' <= _latest_start m' /\
  (Float32.ltb (_latest_start_decay m) Float32.one = true ->
   0 < _latest_start m -> _latest_start m' < _latest_start m).
Proof.
  intros HL Hv H0 H1 H.
  destruct (mul_of_int_le _ _ HL Hv H0 H1) as (n & Hn & Hr & Hlt).
  destruct (GameEnd_inv _ _ _ _ H) as (main & n' & r0 & g & Hm & _ & Hn' & _ & Heq).
  unfold times_decay in Hn'. rewrite Hn in Hn'. inversion Hn'; subst n'; clear Hn'.
  destruct (GameEnd_Ok t m main n Hm Hn ltac:(lia)) as (m2 & H2 & Hth).
  rewrite H in H2. inversion H2; subst m2; clear H2.
  subst m'. cbn in *. repeat split; auto; lia.
Qed.

Lemma run_after_episodes (S : Z) (D : Float32.float) (cs : list call) :
  0 <= S < 2 ^ 24 ->
  Float32.valid D = true ->
  Float32.leb Float32.zero D = true ->
  Float32.leb D Float32.one = true ->
  forall (j : nat) (m m' : object),
    Curriculum.after_episodes S D j m ->
    run cs m = Ok m' ->
    Curriculum.after_episodes S D (j + Curriculum.episodes cs) m'.
Proof.
  intros HS Hv H0 H1.
  induction cs as [| c cs IH]; intros j m m' Hinv Hrun.
  - inversion Hrun; subst. unfold Curriculum.episodes. cbn.
    now rewrite Nat.add_0_r.
  - cbn [run] in Hrun. apply bind_Ok in Hrun. destruct Hrun as (m1 & Hc & Hrun).
    unfold Curriculum.episodes. cbn [filter].
    destruct (is_GameEnd c) eqn:Hge.
    + cbn [List.length]. rewrite Nat.add_succ_r, <- Nat.add_succ_l.
      apply (IH (Datatypes.S j) m1 m'); [| exact Hrun].
      destruct c; try discriminate. cbn [exec] in Hc.
      apply bind_Ok in Hc. destruct Hc as ([r m2] & Hc & Heq).
      inversion Heq; subst m2; clear Heq.
      destruct Hinv as (HD & Hafter & Hrange & _ & Hdec).
      assert (HL : 0 <= _latest_start m < 2 ^ 24) by lia.
      rewrite <- HD in Hv, H0, H1.
      destruct (GameEnd_step _ _ _ _ HL Hv H0 H1 Hc) as (HD' & Hn & Hr & Hth & Hlt).
      rewrite HD in *.
      repeat split; try lia.
      * exact HD'.
      * cbn [Curriculum.latest_start_after]. rewrite Hafter. exact Hn.
      * intro Hltb. specialize (Hdec Hltb). specialize (Hlt Hltb). lia.
    + apply (IH j m1 m'); [| exact Hrun].
      destruct (exec_same _ _ _ Hge Hc) as [Hth Hst Hdc _ _].
      destruct Hinv as (HD & Hafter & Hrange & Hthr & Hdec).
      unfold Curriculum.after_episodes. rewrite Hth, Hst, Hdc. auto.
Qed.

End Episode.

End Episode.

(* ===================================================================== *)
(** * Construction from the argument string *)
(* ===================================================================== *)

Module Construction.

Import Elf MixedAI MixedAI_facts.

Section Construction.
Context {E : Engine}.

(** The lines written by the loop: one for each entry with an unknown key. *)
Lemma configure_all_lines (opt : AIOptions) (kvs : Std.map) (m m' : object)
    (out out' : list string) :
  configure_all opt kvs (m, out) = Ok (m', out') ->
  out' = out ++ Curriculum.unrecognized_lines kvs.
Proof.
  unfold Curriculum.unrecognized_lines.
  revert m out. induction kvs as [| [k v] kvs IH]; intros m out H.
  - inversion H; subst. cbn. now rewrite app_nil_r.
  - cbn [configure_all] in H. apply bind_Ok in H.
    destruct H as ([m1 out1] & H1 & H2).
    apply IH in H2. subst out'. clear IH.
    cbn [filter fst snd]. unfold Curriculum.key_known.
    unfold configure in H1.
    destruct (String.eqb k "start").
    { apply bind_Ok in H1. destruct H1 as (n & _ & H1). now inversion H1. }
    destruct (String.eqb k "decay").
    { apply bind_Ok in H1. destruct H1 as (n & _ & H1). now inversion H1. }
    destruct (String.eqb k "backup").
    { destruct (_ || _); [| destruct (_ || _)]; now inversion H1. }
    inversion H1; subst. cbn. now rewrite <- app_assoc.
Qed.

(** The loop returns when every [start] and [decay] value converts. *)
Lemma configure_all_returns (opt : AIOptions) (kvs : Std.map) (m : object)
    (out : list string) :
  (forall v, In ("start"%string, v) kvs -> returns (Std.stoi v) = true) ->
  (forall v, In ("decay"%string, v) kvs -> returns (stof v) = true) ->
  exists m' out', configure_all opt kvs (m, out) = Ok (m', out').
Proof.
  revert m out. induction kvs as [| [k v] kvs IH]; intros m out Hs Hd.
  - cbn. eauto.
  - cbn [configure_all].
    assert (H1 : exists m1 out1, configure opt (m, out) (k, v) = Ok (m1, out1)).
    { unfold configure.
      destruct (String.eqb_spec k "start") as [-> |].
      { specialize (Hs v (or_introl eq_refl)).
        destruct (Std.stoi v); try discriminate. cbn. eauto. }
      destruct (String.eqb_spec k "decay") as [-> |].
      { specialize (Hd v (or_introl eq_refl)).
        destruct (stof v); try discriminate. cbn. eauto. }
      destruct (String.eqb k "backup"); [| eauto].
      destruct (_ || _); [| destruct (_ || _)]; eauto. }
    destruct H1 as (m1 & out1 & H1). rewrite H1. cbn [Cxx.bind].
    apply IH; intros v' Hin; [apply Hs | apply Hd]; now right.
Qed.




(** C10, as the code has it.  When every [backup] entry of the parsed
    arguments carries a value other than the four known names, and the
    [start] and [decay] values (if any) convert, the constructor returns an
    object with no backup agent and writes lines for the unknown keys only:
    [backup] is a known key and gets none.  Whatever the arguments, a backup
    agent is never a [LuaAI]. *)
Theorem unknown_backup_value_ignored (now : Z) (opt : AIOptions) :
  (forall v, In ("backup"%string, v) (_parse (args opt)) ->
             Curriculum.backup_known v = false) ->
  (forall v, In ("start"%string, v) (_parse (args opt)) ->
             returns (Std.stoi v) = true) ->
  (forall v, In ("decay"%string, v) (_parse (args opt)) ->
             returns (stof v) = true) ->
  (exists m out,
     MixedAI now opt = Ok (m, out) /\
     _backup_ai m = None /\
     out = Curriculum.unrecognized_lines (_parse (args opt))) /\
  Curriculum.key_known "backup" = true /\
  (forall now' opt' m out b,
     MixedAI now' opt' = Ok (m, out) -> _backup_ai m = Some b ->
     class b <> LuaAI).
Proof.
  intros Hb Hs Hd. split; [| split; [reflexivity |]].
  - assert (Hret : exists m out, MixedAI now opt = Ok (m, out) /\
                     out = Curriculum.unrecognized_lines (_parse (args opt))).
    { unfold MixedAI.
      destruct (String.eqb_spec (args opt) "") as [Hargs | Hargs]; cbn [negb].
      - cbn [Cxx.bind]. do 2 eexists. split; [reflexivity |].
        rewrite Hargs. reflexivity.
      - destruct (configure_all_returns opt (_parse (args opt)) (initial opt) [] Hs Hd)
          as (m1 & out1 & H1).
        rewrite H1. cbn [Cxx.bind].
        do 2 eexists. split; [reflexivity |].
        apply configure_all_lines in H1. exact H1. }
    destruct Hret as (m & out & Hnew & Hout).
    exists m, out. split; [exact Hnew | split; [| exact Hout]].
    apply (proj2 (MixedAI_backup _ _ _ _ Hnew)). exact Hb.
  - intros now' opt' m out b Hnew Hsome Hlua.
    destruct (proj1 (MixedAI_backup _ _ _ _ Hnew) b Hsome) as [H | H];
      rewrite H in Hlua; discriminate.
Qed.

End Construction.

End Construction.

(* ===================================================================== *)
(** * The history window of TrainedAI *)
(* ===================================================================== *)

Module History.

Import CircularQueue.

Section Ring.
Context {T : Type}.

Local Open Scope nat_scope.

Lemma assign_length (l : list T) (i : nat) (x : T) :
  List.length (assign l i x) = List.length l.
Proof.
  revert i. induction l as [| y l IH]; intros [| i]; cbn; auto.
Qed.

Lemma assign_same (l : list T) (i : nat) (x : T) :
  i < List.length l -> nth_error (assign l i x) i = Some x.
Proof.
  revert i. induction l as [| y l IH]; intros [| i] H; cbn in *; try lia; auto.
  apply IH. lia.
Qed.

Lemma assign_other (l : list T) (i j : nat) (x : T) :
  i <> j -> nth_error (assign l i x) j = nth_error l j.
Proof.
  revert i j. induction l as [| y l IH]; intros [| i] [| j] H; cbn; auto.
  contradiction.
Qed.

(** Two numbers less than [C] apart sit in different slots. *)
Lemma slots_differ (C j n : nat) : j < n -> n < j + C -> j mod C <> n mod C.
Proof.
  intros Hjn HnC Heq.
  assert (HC : C <> 0) by lia.
  pose proof (Nat.div_mod_eq j C) as Hj.
  pose proof (Nat.div_mod_eq n C) as Hn.
  rewrite Heq in Hj.
  assert (Hle : j / C <= n / C) by (apply Nat.Div0.div_le_mono; lia).
  assert (Hd : n / C = j / C \/ j / C + 1 <= n / C) by lia.
  destruct Hd as [Hd | Hd]; [rewrite Hd in Hn; lia | nia].
Qed.

Lemma mod_eq_shift (C a b k1 k2 : nat) :
  a + k1 * C = b + k2 * C -> a mod C = b mod C.
Proof.
  intro H.
  rewrite <- (Nat.Div0.mod_add a k1 C), <- (Nat.Div0.mod_add b k2 C).
  now rewrite H.
Qed.

Lemma new_holds (C : nat) (empty : T) : holds C (new C empty) [].
Proof.
  constructor; cbn.
  - unfold maxlen. cbn. apply repeat_length.
  - symmetry. apply Nat.Div0.mod_0_l.
  - reflexivity.
  - intros j Hj. lia.
Qed.

Lemma Push_holds (C : nat) (q : t T) (xs : list T) (x : T) :
  holds C q xs -> holds C (Push x q) (xs ++ [x]).
Proof.
  intros [Hmax Hhead Hsz Hslots].
  assert (Hlen : List.length (xs ++ [x]) = S (List.length xs)).
  { rewrite length_app. cbn. lia. }
  constructor; unfold Push, maxlen in *; cbn [v _head _sz]; rewrite ?assign_length, ?Hlen.
  - exact Hmax.
  - rewrite Hmax, Hhead.
    replace (S (List.length xs mod C)) with (List.length xs mod C + 1) by lia.
    rewrite Nat.Div0.add_mod_idemp_l. f_equal. lia.
  - rewrite Hmax, Hsz. lia.
  - intros j Hj HjC. rewrite Hhead.
    destruct (Nat.eq_dec j (List.length xs)) as [-> | Hne].
    + rewrite assign_same.
      * rewrite nth_error_app2 by lia. now rewrite Nat.sub_diag.
      * rewrite Hmax. apply Nat.mod_upper_bound. lia.
    + rewrite assign_other.
      * rewrite nth_error_app1 by lia. apply Hslots; lia.
      * intro Heq. symmetry in Heq. revert Heq. apply slots_differ; lia.
Qed.

Lemma skipn_nth (l : list T) (a : nat) (x : T) :
  nth_error l a = Some x -> skipn a l = x :: skipn (S a) l.
Proof.
  revert a. induction l as [| y l IH]; intros [| a] H; cbn in *; try discriminate.
  - now inversion H.
  - now apply IH.
Qed.

Lemma skipn_as_reads (l : list T) (k a : nat) :
  a + k = List.length l ->
  flat_map (fun i => match nth_error l i with Some x => [x] | None => [] end)
           (seq a k)
  = skipn a l.
Proof.
  revert a. induction k as [| k IH]; intros a H.
  - cbn. rewrite skipn_all2; [reflexivity | lia].
  - cbn [seq flat_map].
    destruct (nth_error l a) as [x |] eqn:Hx.
    + rewrite IH by lia. symmetry. now apply skipn_nth.
    + apply nth_error_None in Hx. lia.
Qed.

Lemma seq_from (a k : nat) : seq a k = List.map (fun i => a + i) (seq 0 k).
Proof.
  induction a as [| a IH].
  - cbn. now rewrite map_id.
  - rewrite <- seq_shift, IH, map_map. reflexivity.
Qed.

(** The window of a queue that holds [xs]: the last [min n C] of them. *)
Lemma window_holds (C : nat) (q : t T) (xs : list T) :
  holds C q xs ->
  window q = skipn (List.length xs - Nat.min (List.length xs) C) xs.
Proof.
  intros [Hmax Hhead Hsz Hslots].
  set (n := List.length xs) in *.
  set (sz := Nat.min n C) in *.
  rewrite <- (skipn_as_reads xs sz (n - sz)) by (unfold sz, n; lia).
  unfold window. rewrite Hsz. fold sz.
  rewrite (seq_from (n - sz) sz).
  rewrite !flat_map_concat_map, map_map. f_equal.
  apply map_ext_in.
  intros i Hi. apply in_seq in Hi.
  unfold slot. rewrite Hmax, Hsz, Hhead. fold n sz.
  assert (Hmod : (n mod C + C - sz + i) mod C = (n - sz + i) mod C).
  { apply (mod_eq_shift C _ _ (n / C) 1).
    pose proof (Nat.div_mod_eq n C). unfold sz in *. nia. }
  rewrite Hmod, Hslots by (unfold sz in *; lia). reflexivity.
Qed.

End Ring.

Section Extract.
Context {GameState : Type}.
Variable compute_state : bool -> GameState -> TrainedAI.FeatureVector.

Import TrainedAI.

Lemma extract_each_holds (C : nat) (ss : list GameState) :
  forall (a : object) (xs last : list FeatureVector),
    holds C (_recent_states a) xs ->
    last = window (_recent_states a) ->
    holds C (_recent_states (fst (extract_each compute_state ss a last)))
          (xs ++ List.map (compute_state (_respect_fow a)) ss) /\
    snd (extract_each compute_state ss a last)
      = window (_recent_states (fst (extract_each compute_state ss a last))).
Proof.
  induction ss as [| s ss IH]; intros a xs last Hq Hlast.
  - cbn. rewrite app_nil_r. auto.
  - cbn [extract_each extract List.map].
    set (x := compute_state (_respect_fow a) s).
    specialize (IH {| _respect_fow := _respect_fow a;
                      _recent_states := Push x (_recent_states a) |}
                   (xs ++ [x]) (window (Push x (_recent_states a)))).
    cbn [_respect_fow _recent_states] in IH.
    rewrite <- app_assoc in IH. cbn [app] in IH.
    apply IH; [apply Push_holds; exact Hq | reflexivity].
Qed.

(** C8.  A trained agent built for [C] frames, after one [extract] per
    game state of a sequence: the payload of the last call has at most [C]
    vectors and is exactly the last [min n C] vectors pushed, oldest
    first. *)
Theorem extract_window_is_recent_history (opt : AIOptions) (ss : list GameState) :
  let C := Z.to_nat (num_frames_in_state opt) in
  let pushed := List.map (compute_state (fow opt)) ss in
  let payload := snd (extract_each compute_state ss (TrainedAI opt) []) in
  (List.length payload <= C)%nat /\
  payload = lastn (Nat.min (List.length ss) C) pushed.
Proof.
  cbv zeta.
  set (C := Z.to_nat (num_frames_in_state opt)).
  destruct (extract_each_holds C ss (TrainedAI opt) [] [])
    as [Hholds Hpay].
  { apply new_holds. }
  { reflexivity. }
  cbn [app _respect_fow TrainedAI] in Hholds.
  assert (Heq : snd (extract_each compute_state ss (TrainedAI opt) [])
                = lastn (Nat.min (List.length ss) C)
                        (List.map (compute_state (fow opt)) ss)).
  { rewrite Hpay, (window_holds C _ _ Hholds). unfold lastn.
    rewrite length_map. reflexivity. }
  split; [| exact Heq].
  rewrite Heq. unfold lastn. rewrite length_skipn, length_map. lia.
Qed.

End Extract.

End History.

(* ===================================================================== *)
(** * The parsed map *)
(* ===================================================================== *)

Module Parsed.

Import MixedAI.

Lemma ascii_compare_refl (a : ascii) : Ascii.compare a a = Eq.
Proof. unfold Ascii.compare. apply N.compare_refl. Qed.

Lemma string_compare_refl (s : string) : String.compare s s = Eq.
Proof.
  induction s as [| c s IH]; cbn; [reflexivity |].
  now rewrite ascii_compare_refl.
Qed.

Lemma string_compare_eq (s1 s2 : string) : String.compare s1 s2 = Eq <-> s1 = s2.
Proof.
  split; [apply String.compare_eq_iff | intros ->; apply string_compare_refl].
Qed.

Lemma string_lt_trans (a b c : string) :
  String.compare a b = Lt -> String.compare b c = Lt -> String.compare a c = Lt.
Proof.
  revert b c. induction a as [| x a IH]; intros [| y b] [| z c]; cbn;
    try discriminate; try reflexivity.
  unfold Ascii.compare.
  destruct (N.compare_spec (N_of_ascii x) (N_of_ascii y)) as [Hxy | Hxy | Hxy];
    destruct (N.compare_spec (N_of_ascii y) (N_of_ascii z)) as [Hyz | Hyz | Hyz];
    try discriminate; intros H1 H2.
  - rewrite Hxy, Hyz, N.compare_refl. eauto.
  - rewrite Hxy. now apply N.compare_lt_iff in Hyz as ->.
  - rewrite <- Hyz. now apply N.compare_lt_iff in Hxy as ->.
  - assert (Hxz : (N_of_ascii x < N_of_ascii z)%N) by (eapply N.lt_trans; eauto).
    now apply N.compare_lt_iff in Hxz as ->.
Qed.

Lemma eqb_compare (k k' : string) :
  String.eqb k k' = match String.compare k k' with Eq => true | _ => false end.
Proof.
  destruct (String.eqb_spec k k') as [-> | Hne].
  - now rewrite string_compare_refl.
  - destruct (String.compare k k') eqn:Hc; try reflexivity.
    apply String.compare_eq_iff in Hc. contradiction.
Qed.

(** Below the first key of a sorted map no key is found. *)
Lemma find_below (k k0 v0 : string) (m : Std.map) :
  Config.sorted ((k0, v0) :: m) = true ->
  String.compare k k0 = Lt ->
  Std.find k ((k0, v0) :: m) = None.
Proof.
  revert k0 v0. induction m as [| [k1 v1] m IH]; intros k0 v0 Hs Hlt.
  - cbn. rewrite eqb_compare, Hlt. reflexivity.
  - cbn [Std.find]. rewrite eqb_compare, Hlt.
    cbn [Config.sorted] in Hs. apply andb_prop in Hs. destruct Hs as [H01 Hs].
    apply IH; [exact Hs |].
    unfold String.ltb in H01.
    destruct (String.compare k0 k1) eqn:Hc; try discriminate.
    eapply string_lt_trans; eauto.
Qed.

Lemma sorted_tail (kv : string * string) (m : Std.map) :
  Config.sorted (kv :: m) = true -> Config.sorted m = true.
Proof.
  destruct kv as [k v]. destruct m as [| [k1 v1] m]; [reflexivity |].
  cbn [Config.sorted]. intro H. apply andb_prop in H. tauto.
Qed.

(** [insert] keeps the map sorted. *)
Lemma insert_sorted (k v : string) (m : Std.map) :
  Config.sorted m = true -> Config.sorted (Std.insert k v m) = true.
Proof.
  induction m as [| [k0 v0] m IH]; intro Hs; [reflexivity |].
  cbn [Std.insert].
  destruct (String.compare k k0) eqn:Hc.
  - exact Hs.
  - change (String.ltb k k0 && Config.sorted ((k0, v0) :: m) = true).
    unfold String.ltb. rewrite Hc. exact Hs.
  - specialize (IH (sorted_tail _ _ Hs)).
    assert (H0k : String.ltb k0 k = true).
    { unfold String.ltb. rewrite String.compare_antisym, Hc. reflexivity. }
    destruct m as [| [k1 v1] m].
    + cbn. now rewrite H0k.
    + cbn [Std.insert] in *.
      cbn [Config.sorted] in Hs. apply andb_prop in Hs. destruct Hs as [H01 Hs].
      destruct (String.compare k k1) eqn:Hc1.
      * cbn [Config.sorted]. rewrite H01. exact Hs.
      * change (String.ltb k0 k && Config.sorted ((k, v) :: (k1, v1) :: m) = true).
        rewrite H0k. exact IH.
      * change (String.ltb k0 k1 && Config.sorted ((k1, v1) :: Std.insert k v m) = true).
        rewrite H01. exact IH.
Qed.

(** [insert] then [find]: a key that was bound keeps its value, a new key
    gets the inserted one, and no other key is affected. *)
Lemma find_insert (k v k' : string) (m : Std.map) :
  Config.sorted m = true ->
  Std.find k' (Std.insert k v m) =
  if String.eqb k' k
  then match Std.find k m with Some v0 => Some v0 | None => Some v end
  else Std.find k' m.
Proof.
  induction m as [| [k0 v0] m IH]; intro Hs.
  - cbn. destruct (String.eqb k' k); reflexivity.
  - cbn [Std.insert].
    destruct (String.compare k k0) eqn:Hc.
    + apply String.compare_eq_iff in Hc. subst k0.
      cbn [Std.find]. rewrite String.eqb_refl.
      destruct (String.eqb k' k); reflexivity.
    + rewrite (find_below k k0 v0 m Hs Hc).
      cbn [Std.find]. destruct (String.eqb k' k); reflexivity.
    + cbn [Std.find].
      rewrite (eqb_compare k k0), Hc.
      rewrite (IH (sorted_tail _ _ Hs)).
      destruct (String.eqb_spec k' k0) as [-> | Hne0].
      * rewrite (eqb_compare k0 k), String.compare_antisym, Hc. reflexivity.
      * reflexivity.
Qed.

Lemma parse_item_sorted (kvmap : Std.map) (item : string) :
  Config.sorted kvmap = true -> Config.sorted (_parse_item kvmap item) = true.
Proof.
  intro Hs. unfold _parse_item.
  destruct (CmdLineUtils.split item "/") as [| k [| v [| x l]]]; auto.
  now apply insert_sorted.
Qed.

Lemma fold_parse_sorted (items : list string) (acc : Std.map) :
  Config.sorted acc = true ->
  Config.sorted (fold_left _parse_item items acc) = true.
Proof.
  revert acc. induction items as [| item items IH]; intros acc Hs; [exact Hs |].
  cbn [fold_left]. apply IH. now apply parse_item_sorted.
Qed.

Lemma parse_is_sorted (args : string) : Config.sorted (_parse args) = true.
Proof. unfold _parse. now apply fold_parse_sorted. Qed.

(** X1.  Whatever the argument string and the order of its fields, [_parse]
    returns the pairs in strictly increasing key order: each key once. *)
Theorem parse_sorted (args : string) : Config.sorted (_parse args) = true.
Proof. exact (parse_is_sorted args). Qed.

Lemma fold_parse_find (k : string) (items : list string) (acc : Std.map) :
  Config.sorted acc = true ->
  Std.find k (fold_left _parse_item items acc) =
  match Std.find k acc with
  | Some v => Some v
  | None => Config.first_field k items
  end.
Proof.
  revert acc. induction items as [| item items IH]; intros acc Hs.
  - cbn. destruct (Std.find k acc); reflexivity.
  - cbn [fold_left Config.first_field].
    rewrite (IH _ (parse_item_sorted acc item Hs)).
    unfold _parse_item.
    destruct (CmdLineUtils.split item "/") as [| k' [| v [| x l]]]; try reflexivity.
    rewrite (find_insert k' v k acc Hs), (String.eqb_sym k k').
    destruct (String.eqb_spec k' k) as [-> | Hne]; [| reflexivity].
    destruct (Std.find k acc); reflexivity.
Qed.

(** X2.  The value [_parse] binds to a key is the one of the first field that
    carries the key: a later field with the same key changes nothing, and a
    key no field carries is not bound. *)
Theorem parse_first_field (args k : string) :
  Std.find k (_parse args)
  = Config.first_field k (CmdLineUtils.split args "|").
Proof. unfold _parse. now rewrite fold_parse_find. Qed.

(** In a sorted map [find] returns the one entry of a key. *)
Lemma find_tail_none (k v : string) (m : Std.map) :
  Config.sorted ((k, v) :: m) = true -> Std.find k m = None.
Proof.
  destruct m as [| [k1 v1] m]; [reflexivity |].
  intro Hs. apply find_below; [apply (sorted_tail _ _ Hs) |].
  cbn [Config.sorted] in Hs. apply andb_prop in Hs. destruct Hs as [H _].
  unfold String.ltb in H. destruct (String.compare k k1); try discriminate.
  reflexivity.
Qed.

Lemma In_find (k v : string) (m : Std.map) :
  Config.sorted m = true -> In (k, v) m -> Std.find k m = Some v.
Proof.
  induction m as [| [k0 v0] m IH]; intros Hs Hin; [contradiction |].
  cbn [Std.find]. destruct Hin as [Heq | Hin].
  - inversion Heq; subst. now rewrite String.eqb_refl.
  - destruct (String.eqb_spec k k0) as [-> | Hne].
    + rewrite (find_tail_none _ _ _ Hs) in IH.
      specialize (IH (sorted_tail _ _ Hs) Hin). discriminate.
    + apply IH; [apply (sorted_tail _ _ Hs) | exact Hin].
Qed.

Lemma find_In (k v : string) (m : Std.map) :
  Std.find k m = Some v -> In (k, v) m.
Proof.
  induction m as [| [k0 v0] m IH]; cbn; [discriminate |].
  destruct (String.eqb_spec k k0) as [-> | Hne].
  - intro H. inversion H. now left.
  - intro H. right. now apply IH.
Qed.

End Parsed.

(* ===================================================================== *)
(** * The constructor, read through the lookups *)
(* ===================================================================== *)

Module Lookups.

Import Elf MixedAI MixedAI_facts Parsed.

Section Lookups.
Context {E : Engine}.

Local Open Scope string_scope.

(** One pass of the loop over a sorted map, member by member. *)
Lemma configure_all_lookups (opt : AIOptions) (kvs : Std.map) :
  Config.sorted kvs = true ->
  forall (m m' : object) (out out' : list string),
    configure_all opt kvs (m, out) = Ok (m', out') ->
    match Std.find "start" kvs with
    | Some v => Std.stoi v = Ok (_latest_start m')
    | None => _latest_start m' = _latest_start m
    end /\
    match Std.find "decay" kvs with
    | Some v => stof v = Ok (_latest_start_decay m')
    | None => _latest_start_decay m' = _latest_start_decay m
    end /\
    match Config.selected (Std.find "backup" kvs) with
    | Some c =>
        _backup_ai m'
        = Some (new c (AIOptions_with_fs AIOptions_default (fs opt)))
    | None => _backup_ai m' = _backup_ai m
    end.
Proof.
  induction kvs as [| [k v] kvs IH]; intros Hs m m' out out' H.
  - inversion H; subst. cbn. auto.
  - cbn [configure_all] in H. apply bind_Ok in H.
    destruct H as ([m1 out1] & H1 & H2).
    pose proof (find_tail_none k v kvs Hs) as Hnone.
    specialize (IH (sorted_tail _ _ Hs) _ _ _ _ H2).
    destruct IH as (IHs & IHd & IHb).
    cbn [Std.find]. unfold configure in H1.
    destruct (String.eqb_spec k "start") as [-> | Hks].
    { apply bind_Ok in H1. destruct H1 as (n & Hn & H1).
      inversion H1; subst m1 out1; clear H1.
      rewrite Hnone in IHs. cbn in IHs, IHd, IHb |- *.
      rewrite IHs. split; [exact Hn | split; [exact IHd | exact IHb]]. }
    destruct (String.eqb_spec k "decay") as [-> | Hkd].
    { apply bind_Ok in H1. destruct H1 as (f & Hf & H1).
      inversion H1; subst m1 out1; clear H1.
      rewrite Hnone in IHd. cbn in IHs, IHd, IHb |- *.
      rewrite IHd. split; [exact IHs | split; [exact Hf | exact IHb]]. }
    destruct (String.eqb_spec k "backup") as [-> | Hkb].
    { rewrite Hnone in IHb. cbn [Config.selected] in IHb.
      cbn [String.eqb Ascii.eqb Bool.eqb]. cbn [Config.selected].
      destruct (String.eqb v "AI_SIMPLE" || String.eqb v "ai_simple").
      { inversion H1; subst m1 out1; clear H1. cbn in IHs, IHd, IHb |- *.
        rewrite IHb. auto. }
      destruct (String.eqb v "AI_HIT_AND_RUN" || String.eqb v "ai_hit_and_run").
      { inversion H1; subst m1 out1; clear H1. cbn in IHs, IHd, IHb |- *.
        rewrite IHb. auto. }
      inversion H1; subst m1 out1; clear H1. auto. }
    inversion H1; subst m1 out1; clear H1.
    assert (Hs' : String.eqb "start" k = false) by (apply String.eqb_neq; congruence).
    assert (Hd' : String.eqb "decay" k = false) by (apply String.eqb_neq; congruence).
    assert (Hb' : String.eqb "backup" k = false) by (apply String.eqb_neq; congruence).
    rewrite Hs', Hd', Hb'. auto.
Qed.

Lemma lookups_of_MixedAI (now : Z) (opt : AIOptions) (m : object)
    (out : list string) :
  MixedAI now opt = Ok (m, out) ->
  let kvs := _parse (args opt) in
  let opt2 := AIOptions_with_fs AIOptions_default (fs opt) in
  match Std.find "start" kvs with
  | Some v => Std.stoi v = Ok (_latest_start m)
  | None => _latest_start m = 0
  end /\
  match Std.find "decay" kvs with
  | Some v => stof v = Ok (_latest_start_decay m)
  | None => _latest_start_decay m = Float32.zero
  end /\
  _backup_ai m
  = option_map (fun c => Elf.SetId no_id (new c opt2))
               (Config.selected (Std.find "backup" kvs)) /\
  _main_ai m = None /\
  _backup_ai_tick_thres m = 0 /\
  _rng m = mt19937_seed now /\
  AI_base m = AI_T_new opt /\
  out = Curriculum.unrecognized_lines kvs.
Proof.
  intro Hnew. cbv zeta.
  unfold MixedAI in Hnew. apply bind_Ok in Hnew.
  destruct Hnew as ([m1 out1] & H1 & H2). inversion H2; subst m out1; clear H2.
  cbn [_latest_start _latest_start_decay _backup_ai _main_ai _backup_ai_tick_thres
       _rng AI_base with_rng].
  destruct (String.eqb_spec (args opt) "") as [Hargs | Hargs]; cbn [negb] in H1.
  - inversion H1; subst m1 out; clear H1. rewrite Hargs.
    cbn. repeat split; reflexivity.
  - apply bind_Ok in H1. destruct H1 as ([m2 out2] & H1 & H2).
    inversion H2; subst m1 out2; clear H2.
    pose proof (configure_all_lookups opt _ (parse_is_sorted (args opt)) _ _ _ _ H1)
      as (Hs & Hd & Hb).
    pose proof (configure_all_configured _ _ _ _ _ _ H1) as [Hbase Hmain Hth Hrng].
    pose proof (Construction.configure_all_lines _ _ _ _ _ _ H1) as Hout.
    cbn [initial _latest_start _latest_start_decay _backup_ai _main_ai
         _backup_ai_tick_thres _rng AI_base] in *.
    assert (Hid : id m2 = no_id) by (unfold id; now rewrite Hbase).
    assert (Hst : s_ptr m2 = None) by (unfold s_ptr; now rewrite Hbase).
    unfold bind_backup. rewrite Hid, Hst.
    destruct (Config.selected (Std.find "backup" (_parse (args opt)))) as [c |];
      rewrite Hb; cbn; repeat split; auto.
Qed.

(** X3.  The object a returning constructor leaves is read off three lookups in
    the parsed map: [start] through [std::stoi] (else [0]), [decay] through
    [std::stof] (else [0.0]), [backup] through the two pairs of known names
    (else no backup agent).  The backup agent is built from default options
    with the frame skip of [opt] and has been given the identity of the
    object under construction, which is still unbound, and no state.  There is no main
    agent, the threshold is [0], the generator is seeded with the time, and
    the lines written are those of the other keys. *)
Theorem MixedAI_from_lookups (now : Z) (opt : AIOptions) (m : object)
    (out : list string) :
  MixedAI now opt = Ok (m, out) ->
  let kvs := _parse (args opt) in
  let opt2 := AIOptions_with_fs AIOptions_default (fs opt) in
  match Std.find "start" kvs with
  | Some v => Std.stoi v = Ok (_latest_start m)
  | None => _latest_start m = 0
  end /\
  match Std.find "decay" kvs with
  | Some v => stof v = Ok (_latest_start_decay m)
  | None => _latest_start_decay m = Float32.zero
  end /\
  _backup_ai m
  = option_map (fun c => Elf.SetId no_id (new c opt2))
               (Config.selected (Std.find "backup" kvs)) /\
  _main_ai m = None /\
  _backup_ai_tick_thres m = 0 /\
  _rng m = mt19937_seed now /\
  AI_base m = AI_T_new opt /\
  out = Curriculum.unrecognized_lines kvs.
Proof. exact (lookups_of_MixedAI now opt m out). Qed.

(** X4.  The constructor returns exactly when the [start] value and the [decay]
    value the parsed map holds, if any, convert; an unknown key, an unknown
    [backup] value or an empty argument string never stop it. *)
Theorem MixedAI_returns_iff (now : Z) (opt : AIOptions) :
  returns (MixedAI now opt) = true <->
  match Std.find "start" (_parse (args opt)) with
  | Some v => returns (Std.stoi v) = true
  | None => True
  end /\
  match Std.find "decay" (_parse (args opt)) with
  | Some v => returns (stof v) = true
  | None => True
  end.
Proof.
  split.
  - intro Hret. destruct (MixedAI now opt) as [[m out] | e | f] eqn:Hnew;
      try discriminate.
    destruct (lookups_of_MixedAI _ _ _ _ Hnew) as (Hs & Hd & _).
    cbv zeta in Hs, Hd. split.
    + destruct (Std.find "start" _); [now rewrite Hs | exact I].
    + destruct (Std.find "decay" _); [now rewrite Hd | exact I].
  - intros [Hs Hd].
    unfold MixedAI.
    destruct (String.eqb (args opt) ""); cbn [negb]; [reflexivity |].
    destruct (Construction.configure_all_returns opt (_parse (args opt))
                (initial opt) []) as (m1 & out1 & H1).
    + intros v Hin.
      rewrite (In_find _ _ _ (parse_is_sorted (args opt)) Hin) in Hs. exact Hs.
    + intros v Hin.
      rewrite (In_find _ _ _ (parse_is_sorted (args opt)) Hin) in Hd. exact Hd.
    + rewrite H1. reflexivity.
Qed.

End Lookups.

End Lookups.

(* ===================================================================== *)
(** * Runs of a constructed object *)
(* ===================================================================== *)

Module Reachable.

Import Elf MixedAI MixedAI_facts Episode.

Section Reachable.
Context {E : Engine}.

Lemma run_app (cs1 cs2 : list call) (m : object) :
  run (cs1 ++ cs2) m = Cxx.bind (run cs1 m) (run cs2).
Proof.
  revert m. induction cs1 as [| c cs1 IH]; intro m; [reflexivity |].
  cbn [app run]. destruct (exec c m); cbn [Cxx.bind]; auto.
Qed.

(** *** Identity and state of the sub-agents *)

Ltac agree_cases :=
  repeat split; intros;
  repeat match goal with
         | H : Some _ = Some _ |- _ => inversion H; subst; clear H
         | H : None = Some _ |- _ => discriminate H
         end;
  cbn in *; auto.

Lemma exec_agrees (c : call) (m m' : object) :
  Config.all_agree m -> exec c m = Ok m' -> Config.all_agree m'.
Proof.
  unfold Config.all_agree, Config.agrees.
  destruct m as [b0 bk mn th g ls dc]. cbn [_backup_ai _main_ai].
  unfold id, s_ptr. cbn [AI_base].
  intros [Hb Hm] H.
  destruct c as [a | x | y | t a done | t]; cbn [exec] in H.
  - destruct a as [a |]; [| discriminate]. cbn in H. inversion H; subst; clear H.
    cbn [_backup_ai _main_ai AI_base]. split; [exact Hb |].
    intros a0 Ha0. inversion Ha0; subst; clear Ha0.
    unfold s_ptr, id. cbn [AI_base].
    destruct (_state b0) as [y |] eqn:Hst0.
    + split; [reflexivity |]. intros y0 Hy. cbn in Hy. rewrite Hst0 in Hy.
      inversion Hy; subst. reflexivity.
    + split; [reflexivity |]. intros y0 Hy. cbn in Hy. rewrite Hst0 in Hy.
      discriminate Hy.
  - inversion H; subst; clear H.
    destruct bk as [b |], mn as [a0 |]; cbn; agree_cases;
      match goal with
      | Hx : forall a, Some ?b = Some a -> _ |- _ =>
          destruct (Hx b eq_refl) as [_ Hst]; apply Hst; assumption
      end.
  - rewrite SetState_Ok in H. inversion H; subst; clear H.
    destruct bk as [b |], mn as [a0 |]; cbn; agree_cases;
      try match goal with
          | Hx : forall a, Some ?b = Some a -> _ |- _ =>
              destruct (Hx b eq_refl) as [Hid _]; exact Hid
          end.
  - apply bind_Ok in H. destruct H as ([[res a'] m1] & H1 & H2).
    inversion H2; subst m1; clear H2.
    unfold on_act, Act_backup, Act_main in H1. cbn [_backup_ai _main_ai] in H1.
    destruct (backup_acts _ t).
    + destruct bk as [b |]; [| discriminate]. cbn in H1.
      unfold Elf.Act in H1.
      destruct (v_Act (class b) (base b) (data b) t a done) as [[r1 a1] d1].
      inversion H1; subst; clear H1. cbn. split; [| exact Hm].
      intros a0 Ha0. inversion Ha0; subst; clear Ha0. apply (Hb b eq_refl).
    + destruct mn as [b |]; [| discriminate]. cbn in H1.
      unfold Elf.Act in H1.
      destruct (v_Act (class b) (base b) (data b) t a done) as [[r1 a1] d1].
      inversion H1; subst; clear H1. cbn. split; [exact Hb |].
      intros a0 Ha0. inversion Ha0; subst; clear Ha0. apply (Hm b eq_refl).
  - apply bind_Ok in H. destruct H as ([res m1] & H1 & H2).
    inversion H2; subst m1; clear H2.
    destruct (GameEnd_inv _ _ _ _ H1) as (main & n & r0 & g0 & Hmain & _ & _ & _ & ->).
    cbn in Hmain |- *. subst mn. split; [exact Hb |].
    intros a0 Ha0. inversion Ha0; subst; clear Ha0.
    unfold Elf.GameEnd.
    destruct (v_GameEnd (class main) (base main) (data main) t) as [r1 d1].
    apply (Hm main eq_refl).
Qed.

Lemma run_agrees (cs : list call) (m m' : object) :
  Config.all_agree m -> run cs m = Ok m' -> Config.all_agree m'.
Proof.
  revert m. induction cs as [| c cs IH]; intros m Ha H.
  - now inversion H; subst.
  - cbn [run] in H. apply bind_Ok in H. destruct H as (m1 & H1 & H2).
    eapply IH; [eapply exec_agrees |]; eauto.
Qed.

Lemma MixedAI_agrees (now : Z) (opt : AIOptions) (m : object) (out : list string) :
  MixedAI now opt = Ok (m, out) -> Config.all_agree m.
Proof.
  intro Hnew.
  destruct (Lookups.lookups_of_MixedAI _ _ _ _ Hnew)
    as (_ & _ & Hb & Hm & _ & _ & Hbase & _).
  cbv zeta in Hb.
  unfold Config.all_agree, Config.agrees, id, s_ptr. rewrite Hb, Hm, Hbase.
  split; [| intros a Ha; discriminate].
  intros a Ha. destruct (Config.selected _) as [c |]; [| discriminate].
  inversion Ha; subst. cbn. split; [reflexivity | intros y Hy; discriminate].
Qed.

(** X5.  In every state a constructed object reaches, through any calls in any
    order, each sub-agent it holds reports the identity of the object, and
    the state of the object once it has one. *)
Theorem sub_agents_agree (now : Z) (opt : AIOptions) (m0 m : object)
    (out : list string) (cs : list call) :
  MixedAI now opt = Ok (m0, out) ->
  run cs m0 = Ok m ->
  Config.agrees m (_backup_ai m) /\ Config.agrees m (_main_ai m).
Proof.
  intros Hnew Hrun.
  exact (run_agrees cs m0 m (MixedAI_agrees _ _ _ _ Hnew) Hrun).
Qed.

(** *** The main agent must come first *)

Lemma run_without_main (cs : list call) (m m' : object) :
  _main_ai m = None ->
  existsb Config.is_SetMainAI cs = false ->
  run cs m = Ok m' ->
  _main_ai m' = None /\
  forallb (fun c => negb (is_GameEnd c)) cs = true.
Proof.
  revert m. induction cs as [| c cs IH]; intros m Hm Hcs H.
  - inversion H; subst. auto.
  - cbn [existsb] in Hcs. apply orb_false_iff in Hcs. destruct Hcs as [Hc Hcs].
    cbn [run] in H. apply bind_Ok in H. destruct H as (m1 & H1 & H2).
    assert (Hstep : _main_ai m1 = None /\ is_GameEnd c = false).
    { destruct c as [a | x | y | t a done | t]; cbn [exec is_GameEnd] in *.
      - destruct a as [a |]; [discriminate Hc | discriminate H1].
      - inversion H1; subst. split; [| reflexivity].
        destruct m as [b0 bk mn th g ls dc]. cbn in Hm. subst mn.
        unfold SetId, on_set_id. destruct bk; reflexivity.
      - rewrite SetState_Ok in H1. inversion H1; subst. split; [| reflexivity].
        destruct m as [b0 bk mn th g ls dc]. cbn in Hm. subst mn.
        destruct bk; reflexivity.
      - apply bind_Ok in H1. destruct H1 as ([[res a'] m2] & H1 & H3).
        inversion H3; subst m2; clear H3. split; [| reflexivity].
        unfold on_act, Act_backup, Act_main in H1. rewrite Hm in H1.
        destruct (backup_acts m t); [| discriminate].
        destruct (_backup_ai m) as [b |]; [| discriminate]. cbn in H1.
        destruct (Elf.Act t a done b) as [[r1 a1] b1].
        inversion H1; subst. exact Hm.
      - apply bind_Ok in H1. destruct H1 as ([res m2] & H1 & _).
        unfold GameEnd, AI_GameEnd in H1. rewrite Hm in H1. discriminate. }
    destruct Hstep as [Hm1 Hge].
    destruct (IH m1 Hm1 Hcs H2) as [Hm' Hall].
    split; [exact Hm' |]. cbn [forallb]. now rewrite Hge, Hall.
Qed.

(** X6.  A constructed object answers [GameEnd], and answers [Act] for a tick
    [t >= 0], only after [SetMainAI] has installed a main agent: a run of
    calls that returns holds a [SetMainAI] before its first such call. *)
Theorem main_agent_comes_first (now : Z) (opt : AIOptions) (m0 m : object)
    (out : list string) (pre post : list call) (c : call) :
  MixedAI now opt = Ok (m0, out) ->
  run (pre ++ c :: post) m0 = Ok m ->
  (is_GameEnd c = true \/ exists t a done, c = call_Act t a done /\ 0 <= t) ->
  existsb Config.is_SetMainAI pre = true.
Proof.
  intros Hnew Hrun Hc.
  destruct (existsb Config.is_SetMainAI pre) eqn:Hpre; [reflexivity | exfalso].
  rewrite run_app in Hrun. apply bind_Ok in Hrun. destruct Hrun as (m1 & H1 & H2).
  destruct (MixedAI_fresh _ _ _ _ Hnew) as (Hmain0 & Hth0 & _).
  destruct (run_without_main pre m0 m1 Hmain0 Hpre H1) as [Hmain1 Hall].
  destruct (run_same _ _ _ Hall H1) as [Hth _ _ _ _].
  cbn [run] in H2. apply bind_Ok in H2. destruct H2 as (m2 & H2 & _).
  destruct Hc as [Hge | (t & a & done & -> & Ht)].
  - destruct c; try discriminate. cbn [exec] in H2.
    apply bind_Ok in H2. destruct H2 as (r & H2 & _).
    unfold GameEnd, AI_GameEnd in H2. rewrite Hmain1 in H2. discriminate.
  - cbn [exec] in H2. apply bind_Ok in H2. destruct H2 as (r & H2 & _).
    unfold on_act, Act_main, backup_acts in H2.
    rewrite Hth, Hth0, Hmain1 in H2.
    assert (Hlt : (t <? 0) = false) by (apply Z.ltb_ge; exact Ht).
    rewrite Hlt, andb_false_r in H2. discriminate.
Qed.

(** *** The generator *)

Lemma drawn_next (k : nat) (g : mt19937) :
  Config.drawn (S k) g = Config.drawn k (snd (mt19937_next g)).
Proof.
  induction k as [| k IH]; [reflexivity |].
  change (Config.drawn (S (S k)) g)
    with (snd (mt19937_next (Config.drawn (S k) g))).
  rewrite IH. reflexivity.
Qed.

Lemma run_draws (cs : list call) (m m' : object) :
  run cs m = Ok m' ->
  _rng m' = Config.drawn (Curriculum.episodes cs) (_rng m).
Proof.
  revert m. induction cs as [| c cs IH]; intros m H.
  - inversion H; subst. reflexivity.
  - cbn [run] in H. apply bind_Ok in H. destruct H as (m1 & H1 & H2).
    rewrite (IH _ H2). unfold Curriculum.episodes. cbn [filter].
    destruct (is_GameEnd c) eqn:Hge.
    + destruct c; try discriminate. cbn [exec] in H1.
      apply bind_Ok in H1. destruct H1 as ([r m2] & H1 & H3).
      inversion H3; subst m2; clear H3.
      destruct (GameEnd_inv _ _ _ _ H1) as (main & n & r0 & g0 & _ & _ & _ & Hg & ->).
      cbn [List.length _rng]. rewrite drawn_next, Hg. reflexivity.
    + now rewrite (same_rng _ _ (exec_same _ _ _ Hge H1)).
Qed.

(** X8.  The generator is seeded once, by the constructor, and advanced by one
    draw per [GameEnd] and by no other call: after a run with [k] episodes
    it is the seeded generator after [k] draws. *)
Theorem one_draw_per_episode (now : Z) (opt : AIOptions) (m0 m : object)
    (out : list string) (cs : list call) :
  MixedAI now opt = Ok (m0, out) ->
  run cs m0 = Ok m ->
  _rng m = Config.drawn (Curriculum.episodes cs) (mt19937_seed now).
Proof.
  intros Hnew Hrun. rewrite (run_draws _ _ _ Hrun).
  destruct (Lookups.lookups_of_MixedAI _ _ _ _ Hnew) as (_ & _ & _ & _ & _ & Hr & _).
  now rewrite Hr.
Qed.

(** *** The threshold never passes the configured start *)

Lemma no_episode (cs : list call) :
  Curriculum.episodes cs = O ->
  forallb (fun c => negb (is_GameEnd c)) cs = true.
Proof.
  unfold Curriculum.episodes.
  induction cs as [| c cs IH]; [reflexivity |].
  cbn [filter forallb]. destruct (is_GameEnd c); cbn; [discriminate | exact IH].
Qed.

(** X9.  For a start in [0, 2^24) and a decay in [0, 1], the threshold of a
    constructed object stays within [0, start] through every run of calls:
    a tick at or after [start] never goes to the backup agent. *)
Theorem backup_prefix_within_start (now : Z) (opt : AIOptions) (m0 m : object)
    (out : list string) (cs : list call) (t : Tick) :
  MixedAI now opt = Ok (m0, out) ->
  0 <= _latest_start m0 < 2 ^ 24 ->
  Float32.valid (_latest_start_decay m0) = true ->
  Float32.leb Float32.zero (_latest_start_decay m0) = true ->
  Float32.leb (_latest_start_decay m0) Float32.one = true ->
  run cs m0 = Ok m ->
  0 <= _backup_ai_tick_thres m <= _latest_start m0 /\
  (_latest_start m0 <= t -> backup_acts m t = false).
Proof.
  intros Hnew HS Hv H0 H1 Hrun.
  assert (Hth : 0 <= _backup_ai_tick_thres m <= _latest_start m0).
  { destruct (Curriculum.episodes cs) as [| k] eqn:Hk.
    - destruct (MixedAI_fresh _ _ _ _ Hnew) as (_ & Hth0 & _).
      destruct (run_same _ _ _ (no_episode cs Hk) Hrun) as [Hth _ _ _ _].
      rewrite Hth, Hth0. lia.
    - assert (Hinit : Curriculum.after_episodes (_latest_start m0)
                        (_latest_start_decay m0) 0 m0).
      { unfold Curriculum.after_episodes. cbn [Curriculum.latest_start_after].
        repeat split; try lia. }
      pose proof (run_after_episodes _ _ cs HS Hv H0 H1 0%nat m0 m Hinit Hrun) as Hinv.
      cbn [Nat.add] in Hinv. rewrite Hk in Hinv.
      destruct Hinv as (_ & _ & Hr & Hthr & _).
      specialize (Hthr ltac:(lia)). lia. }
  split; [exact Hth |].
  intro Ht. unfold backup_acts.
  assert (Hlt : (t <? _backup_ai_tick_thres m) = false) by (apply Z.ltb_ge; lia).
  rewrite Hlt. apply andb_false_r.
Qed.

End Reachable.

End Reachable.

(* ===================================================================== *)
(** * The decay step, bounded from both sides *)
(* ===================================================================== *)

Module Decay.

Import Float32 Float32_facts.

(** Rounding the exact value [M * 2^E], known to lie between the integers
    [L] and [U < 2^24], produces a float whose integer part is at least
    [L]. *)
Lemma round_exact_ge (M : positive) (E L U : Z) :
  E <= 0 -> 0 <= L -> 0 < U < 2 ^ 24 ->
  L * 2 ^ (- E) <= Zpos M -> Zpos M <= U * 2 ^ (- E) ->
  exists a,
    trunc (binary_round_aux prec emax false (Zpos M) E loc_Exact) = Some a /\
    L <= a.
Proof.
  intros HE HL HU HLM HMU.
  unfold binary_round_aux, shr_fexp.
  cbn [shr_record_of_loc].
  set (d := Zdigits2 (Zpos M)).
  set (e1 := fexp prec emax (d + E)).
  pose proof (pow2_pos (- E) ltac:(lia)) as HPE.
  assert (Hd : d + E <= 24).
  { assert (Hd' : d <= 24 - E).
    { apply Zdigits2_le; try lia.
      replace (24 - E) with (24 + - E) by lia.
      rewrite pow2_add by lia. nia. }
    lia. }
  assert (He1 : e1 <= 0 /\ -149 <= e1).
  { unfold e1, fexp, emin, emax, prec. lia. }
  destruct (shr_spec (Zpos M) E (e1 - E) ltac:(lia)) as (mrs & e' & Heq & He' & Hm' & Hr).
  rewrite Heq.
  set (s := Z.max 0 (e1 - E)) in *.
  assert (Hs : 0 <= s) by lia.
  assert (He'0 : e' <= 0) by lia.
  pose proof (pow2_pos s Hs) as HPs.
  pose proof (pow2_pos (- e') ltac:(lia)) as HPe'.
  assert (Hsplit : 2 ^ (- E) = 2 ^ (- e') * 2 ^ s).
  { rewrite <- pow2_add by lia. f_equal. lia. }
  pose proof (Z.div_mod (Zpos M) (2 ^ s) ltac:(lia)) as Hdm.
  pose proof (Z.mod_pos_bound (Zpos M) (2 ^ s) HPs) as Hmod.
  rewrite <- Hm' in Hdm.
  assert (Hm'L : L * 2 ^ (- e') <= shr_m mrs).
  { rewrite Hm'. apply Z.div_le_lower_bound; [lia |]. nia. }
  assert (Hm'U : shr_m mrs <= U * 2 ^ (- e')).
  { rewrite Hm'. apply Z.div_le_upper_bound; [lia |]. nia. }
  set (m1 := round_nearest_even (shr_m mrs) (loc_of_shr_record mrs)).
  assert (Hm1 : L * 2 ^ (- e') <= m1 <= U * 2 ^ (- e')).
  { destruct (round_nearest_even_spec mrs) as [H1 | [H1 Hr1]]; fold m1 in H1;
      [lia |].
    destruct (Hr Hr1) as [Hn Hhalf].
    assert (Hsn : s = e1 - E) by lia. rewrite <- Hsn in Hhalf.
    pose proof (pow2_pos (s - 1) ltac:(lia)) as HPs1.
    split; [lia |]. rewrite H1. nia. }
  assert (Hm10 : 0 <= m1) by nia.
  destruct (shr_spec m1 e' (fexp prec emax (Zdigits2 m1 + e') - e') Hm10)
    as (mrs2 & e2 & Heq2 & He2 & Hm2 & _).
  rewrite Heq2.
  set (s2 := Z.max 0 (fexp prec emax (Zdigits2 m1 + e') - e')) in *.
  assert (Hs2 : 0 <= s2) by lia.
  pose proof (pow2_pos s2 Hs2) as HPs2.
  assert (Hd1 : Zdigits2 m1 <= 24 - e').
  { apply Zdigits2_le; try lia.
    replace (24 - e') with (24 + - e') by lia.
    rewrite pow2_add by lia.
    change (2 ^ 24) with 16777216 in *. nia. }
  assert (He2' : e2 <= 0).
  { unfold s2, fexp, emin, emax, prec in *. lia. }
  pose proof (pow2_pos (- e2) ltac:(lia)) as HPe2.
  assert (Hsplit2 : 2 ^ (- e') = 2 ^ s2 * 2 ^ (- e2)).
  { rewrite <- pow2_add by lia. f_equal. lia. }
  assert (Hm2a : 0 <= shr_m mrs2).
  { rewrite Hm2. apply Z.div_pos; lia. }
  assert (Hfloor : L <= shr_m mrs2 / 2 ^ (- e2)).
  { rewrite Hm2, Z.div_div, <- Hsplit2 by lia.
    apply Z.div_le_lower_bound; lia. }
  destruct (shr_m mrs2) as [| p | p] eqn:Hp; [| | lia].
  - exists 0. split; [reflexivity |]. exact Hfloor.
  - assert (Hb : (e2 <=? emax - prec) = true) by (apply Z.leb_le; cbv [emax prec]; lia).
    rewrite Hb. cbn [trunc].
    destruct (0 <=? e2) eqn:H0.
    + apply Z.leb_le in H0. assert (He20 : e2 = 0) by lia.
      exists (Zpos p * 2 ^ e2). split; [reflexivity |].
      rewrite He20 in Hfloor |- *.
      change (2 ^ (- 0)) with 1 in Hfloor. rewrite Z.div_1_r in Hfloor.
      change (2 ^ 0) with 1. lia.
    + exists (Zpos p / 2 ^ (- e2)). split; [reflexivity | exact Hfloor].
Qed.

Section Decay.
Context {E : Elf.Engine}.

Import Elf MixedAI MixedAI_facts Episode.

Lemma in_int_small (a : Z) : 0 <= a < 2 ^ 24 -> in_int a = true.
Proof.
  intro H. unfold in_int, INT_MIN, INT_MAX.
  change (2 ^ 24) with 16777216 in H. change (2 ^ 31) with 2147483648.
  apply andb_true_intro; split; apply Z.leb_le; lia.
Qed.

(** X11.  [_latest_start *= _latest_start_decay], for [0 <= _latest_start < 2^24]
    and a decay [p / q] in [0, 1]: the new value is the exact product
    [_latest_start * p / q] rounded to one of its two neighbouring integers,
    never further. *)
Theorem decay_rounds_to_neighbour (L : Z) (D : float) (p q : Z) :
  0 <= L < 2 ^ 24 ->
  valid D = true -> leb zero D = true -> leb D one = true ->
  to_ratio D = Some (p, q) ->
  exists a,
    times_decay D L = Ok a /\
    L * p / q <= a <= (L * p + q - 1) / q.
Proof.
  intros HL Hv H0 H1 Hpq. unfold times_decay.
  destruct (unit_interval_shape D Hv H0 H1)
    as [[s ->] | (my & ey & -> & Hey & Hmy & _)].
  - inversion Hpq; subst p q. exists 0. split.
    + destruct (Z.eq_dec L 0) as [-> | HL0]; [reflexivity |].
      destruct (of_int_exact L ltac:(lia)) as (mx & ex & -> & _). reflexivity.
    + rewrite Z.mul_0_r, Z.div_0_l by lia. cbn. lia.
  - cbn [to_ratio] in Hpq.
    assert (Hneg : (0 <=? ey) = false) by (apply Z.leb_gt; lia).
    rewrite Hneg in Hpq. inversion Hpq; subst p q; clear Hpq.
    pose proof (pow2_pos (- ey) ltac:(lia)) as HQ.
    set (Q := 2 ^ (- ey)) in *.
    pose proof (Z.div_mod (L * Zpos my) Q ltac:(lia)) as Hfl.
    pose proof (Z.mod_pos_bound (L * Zpos my) Q HQ) as Hflr.
    pose proof (Z.div_mod (L * Zpos my + Q - 1) Q ltac:(lia)) as Hce.
    pose proof (Z.mod_pos_bound (L * Zpos my + Q - 1) Q HQ) as Hcer.
    set (lo := L * Zpos my / Q) in *.
    set (up := (L * Zpos my + Q - 1) / Q) in *.
    destruct (Z.eq_dec L 0) as [HL0 | HL0].
    { subst L. exists 0. split; [reflexivity |].
      unfold lo, up. cbn [Z.mul]. rewrite Z.div_0_l by lia.
      cbn [Z.add]. split; [lia |]. apply Z.div_pos; lia. }
    destruct (of_int_exact L ltac:(lia)) as (mx & ex & Hof & Hex & Hmx).
    rewrite Hof. unfold mul, SFmul. cbn [xorb].
    pose proof (pow2_pos (- ex) ltac:(lia)) as HPx.
    assert (Hsplit : 2 ^ (- (ex + ey)) = 2 ^ (- ex) * Q).
    { unfold Q. rewrite <- pow2_add by lia. f_equal. lia. }
    assert (Hlo0 : 0 <= lo) by (apply Z.div_pos; lia).
    assert (HupL : up <= L).
    { assert (up < L + 1); [| lia].
      unfold up. apply Z.div_lt_upper_bound; [lia |]. nia. }
    assert (Hup0 : 0 < up) by nia.
    assert (HM : Zpos (mx * my) = L * 2 ^ (- ex) * Zpos my)
      by (rewrite Pos2Z.inj_mul, Hmx; reflexivity).
    destruct (round_exact_le (mx * my) (ex + ey) up ltac:(lia) ltac:(lia))
      as (a & Ha & Hab & _).
    { rewrite HM, Hsplit. nia. }
    destruct (round_exact_ge (mx * my) (ex + ey) lo up ltac:(lia) Hlo0 ltac:(lia))
      as (a' & Ha' & Hab').
    { rewrite HM, Hsplit. nia. }
    { rewrite HM, Hsplit. nia. }
    rewrite Ha in Ha'. inversion Ha'; subst a'; clear Ha'.
    exists a. unfold to_int. rewrite Ha, (in_int_small a ltac:(lia)).
    split; [reflexivity | lia].
Qed.

Lemma to_int_in_int (f : float) (n : Z) : to_int f = Ok n -> in_int n = true.
Proof.
  unfold to_int. destruct (trunc f) as [a |]; [| discriminate].
  destruct (in_int a) eqn:Ha; [| discriminate].
  intro H. inversion H; subst. exact Ha.
Qed.

(** X7.  With a main agent installed and a decayed [_latest_start] of [n],
    [GameEnd] divides by zero exactly when [n = -2]: then
    [int(_latest_start + 0.5) + 1] is [0]. *)
Theorem GameEnd_divides_by_zero (t : Tick) (m : object) (main : AI) (n : Z) :
  _main_ai m = Some main ->
  times_decay (_latest_start_decay m) (_latest_start m) = Ok n ->
  (GameEnd t m = Crash division_by_zero <-> n = -2).
Proof.
  intros Hmain Hn.
  pose proof (to_int_in_int _ _ Hn) as Hint.
  unfold in_int, INT_MIN, INT_MAX in Hint.
  apply andb_prop in Hint. destruct Hint as [Hlo Hhi].
  apply Z.leb_le in Hlo. apply Z.leb_le in Hhi.
  change (2 ^ 31) with 2147483648 in Hlo, Hhi.
  unfold GameEnd, AI_GameEnd. rewrite Hmain. cbn [deref Cxx.bind].
  destruct (Elf.GameEnd t main) as [res main'].
  unfold decay_latest_start.
  cbn [_latest_start_decay _latest_start with_main_ai]. rewrite Hn.
  cbn [Cxx.bind].
  unfold sample_tick_thres, rounded_latest_start.
  cbn [_rng _latest_start with_latest_start with_main_ai].
  destruct (mt19937_next (_rng m)) as [r0 g].
  set (qn := Z.quot (2 * n + 1) 2).
  assert (Hq : (0 <= n -> qn = n) /\ (n < 0 -> qn = n + 1)).
  { split; intro Hs.
    - unfold qn. apply rounded_nonneg. exact Hs.
    - unfold qn. replace (2 * n + 1) with (- (2 * (- n - 1) + 1)) by lia.
      rewrite Z.quot_opp_l by lia. rewrite rounded_nonneg by lia. lia. }
  destruct Hq as [Hq1 Hq2].
  unfold INT_MAX. change (2 ^ 31 - 1) with 2147483647.
  destruct (Z.eqb_spec qn 2147483647) as [Hmax | Hmax].
  - split; [discriminate | lia].
  - unfold to_uint_fast32, uint_fast32_bits.
    change (2 ^ 64) with 18446744073709551616.
    destruct (Z.eqb_spec ((qn + 1) mod 18446744073709551616) 0) as [Hz | Hz].
    + split; [intros _ | reflexivity].
      apply Z.mod_divide in Hz; [| lia]. destruct Hz as [c Hc]. lia.
    + split; [cbn; discriminate |].
      intro Hn2. exfalso. apply Hz. subst n.
      rewrite (Hq2 ltac:(lia)). reflexivity.
Qed.

(** The decay [0.0] takes any start in [0, 2^24) to [0]. *)
Lemma times_decay_zero (L : Z) :
  0 <= L < 2 ^ 24 -> times_decay zero L = Ok 0.
Proof.
  intro HL. unfold times_decay.
  destruct (Z.eq_dec L 0) as [-> | HL0]; [reflexivity |].
  destruct (of_int_exact L ltac:(lia)) as (mx & ex & -> & _). reflexivity.
Qed.

Lemma run_without_decay (cs : list call) (m m' : object) :
  _latest_start_decay m = zero ->
  _backup_ai_tick_thres m = 0 ->
  0 <= _latest_start m < 2 ^ 24 ->
  run cs m = Ok m' ->
  _latest_start_decay m' = zero /\
  _backup_ai_tick_thres m' = 0 /\
  0 <= _latest_start m' < 2 ^ 24 /\
  ((1 <= Curriculum.episodes cs)%nat -> _latest_start m' = 0).
Proof.
  revert m. induction cs as [| c cs IH]; intros m Hd Hth HL H.
  - inversion H; subst. repeat split; auto; try lia.
    unfold Curriculum.episodes. cbn. lia.
  - cbn [run] in H. apply bind_Ok in H. destruct H as (m1 & H1 & H2).
    unfold Curriculum.episodes. cbn [filter].
    destruct (is_GameEnd c) eqn:Hge.
    + destruct c; try discriminate. cbn [exec] in H1.
      apply bind_Ok in H1. destruct H1 as ([r m2] & H1 & H3).
      inversion H3; subst m2; clear H3.
      assert (Hv : valid (_latest_start_decay m) = true) by (rewrite Hd; reflexivity).
      assert (H0 : leb zero (_latest_start_decay m) = true) by (rewrite Hd; reflexivity).
      assert (H1' : leb (_latest_start_decay m) one = true) by (rewrite Hd; reflexivity).
      destruct (GameEnd_step _ _ _ _ HL Hv H0 H1' H1) as (Hd1 & Hn & Hr & Hth1 & _).
      rewrite Hd, (times_decay_zero _ HL) in Hn.
      assert (Hz : _latest_start m1 = 0) by (inversion Hn; reflexivity).
      rewrite Hz in Hth1.
      assert (Hd1z : _latest_start_decay m1 = zero) by congruence.
      assert (Hth1z : _backup_ai_tick_thres m1 = 0) by lia.
      assert (HL1 : 0 <= _latest_start m1 < 2 ^ 24)
        by (rewrite Hz; change (2 ^ 24) with 16777216; lia).
      destruct (IH m1 Hd1z Hth1z HL1 H2) as (Hd' & Hth' & HL' & Hz').
      repeat split; auto; try lia.
      intros _. destruct (Curriculum.episodes cs) as [| k] eqn:Hk.
      * destruct (run_same _ _ _ (Reachable.no_episode cs Hk) H2) as [_ Hst _ _ _].
        congruence.
      * apply Hz'. unfold Curriculum.episodes in Hk. lia.
    + destruct (exec_same _ _ _ Hge H1) as [Hth1 Hst1 Hd1 _ _].
      assert (Hd1z : _latest_start_decay m1 = zero) by congruence.
      assert (Hth1z : _backup_ai_tick_thres m1 = 0) by congruence.
      assert (HL1 : 0 <= _latest_start m1 < 2 ^ 24) by (rewrite Hst1; exact HL).
      destruct (IH m1 Hd1z Hth1z HL1 H2) as (Hd' & Hth' & HL' & Hz').
      repeat split; auto; lia.
Qed.

(** X10.  Without a [decay] entry the decay stays [0.0]: the first [GameEnd] takes
    [_latest_start] to [0], the threshold is [0] before and after it, and a
    constructed object never hands a tick [t >= 0] to its backup agent,
    whatever [start] (in [0, 2^24)) and [backup] were given. *)
Theorem start_without_decay_is_idle (now : Z) (opt : AIOptions) (m0 m : object)
    (out : list string) (cs : list call) :
  MixedAI now opt = Ok (m0, out) ->
  Std.find "decay" (_parse (args opt)) = None ->
  0 <= _latest_start m0 < 2 ^ 24 ->
  run cs m0 = Ok m ->
  _backup_ai_tick_thres m = 0 /\
  (forall t, 0 <= t -> backup_acts m t = false) /\
  ((1 <= Curriculum.episodes cs)%nat -> _latest_start m = 0).
Proof.
  intros Hnew Hnone HL Hrun.
  destruct (Lookups.lookups_of_MixedAI _ _ _ _ Hnew) as (_ & Hd & _ & _ & Hth & _).
  cbv zeta in Hd. rewrite Hnone in Hd.
  destruct (run_without_decay cs m0 m Hd Hth HL Hrun) as (_ & Hth' & _ & Hz).
  split; [exact Hth' | split; [| exact Hz]].
  intros t Ht. unfold backup_acts. rewrite Hth'.
  assert (Hlt : (t <? 0) = false) by (apply Z.ltb_ge; exact Ht).
  rewrite Hlt. apply andb_false_r.
Qed.

End Decay.

End Decay.

(* ===================================================================== *)
(** * The decay step against the exact product *)
(* ===================================================================== *)

Module Product.

Import Float32 Float32_facts Decay.

(** A valid float in [0, 1] as a fraction [p / q]: [0 <= p <= q], and
    [p < q] only for a float below [1.0]. *)
Lemma unit_interval_ratio (D : float) :
  valid D = true -> leb zero D = true -> leb D one = true ->
  exists p q,
    to_ratio D = Some (p, q) /\ 0 <= p <= q /\ 0 < q /\
    (p < q -> ltb D one = true).
Proof.
  intros Hv H0 H1.
  destruct (unit_interval_shape D Hv H0 H1)
    as [[s ->] | (my & ey & -> & Hey & Hmy & _)].
  - exists 0, 1. cbn [to_ratio]. repeat split; lia.
  - exists (Zpos my), (2 ^ (- ey)). cbn [to_ratio].
    assert (Hneg : (0 <=? ey) = false) by (apply Z.leb_gt; lia).
    rewrite Hneg.
    pose proof (pow2_pos (- ey) ltac:(lia)) as HQ.
    repeat split; try lia.
    intro Hlt. unfold ltb, SFltb. rewrite one_eq. cbn [SFcompare].
    destruct (ey ?= -23) eqn:Hcmp.
    + apply Z.compare_eq in Hcmp. subst ey.
      change (2 ^ (- -23)) with 8388608 in Hlt.
      destruct (Pos.compare_cont Eq my 8388608) eqn:Hc2; [| reflexivity |];
        exfalso.
      * apply (Pos.compare_eq my 8388608) in Hc2. subst my.
        exact (Z.lt_irrefl _ Hlt).
      * apply (proj1 (Pos.compare_gt_iff my 8388608)) in Hc2.
        apply Pos2Z.pos_lt_pos in Hc2. clear - Hc2 Hlt. lia.
    + reflexivity.
    + assert (Hgt : ey > -23) by exact Hcmp. lia.
Qed.

Section Product.
Context {E : Elf.Engine}.

Import Elf MixedAI MixedAI_facts Episode.

(** [_latest_start *= _latest_start_decay] against the exact product, for
    [0 <= _latest_start < 2^24] and a decay [p / q] in [0, 1]: the new value
    [a] is a neighbouring integer of [_latest_start * p / q], it is not above
    the old one, it exceeds the product by less than [a * 2^-24], and it is
    below the old value when the decay is below [1]. *)
Lemma times_decay_product (L : Z) (D : float) (p q : Z) :
  0 <= L < 2 ^ 24 ->
  valid D = true -> leb zero D = true -> leb D one = true ->
  to_ratio D = Some (p, q) ->
  exists a,
    times_decay D L = Ok a /\
    L * p / q <= a <= (L * p + q - 1) / q /\
    0 <= a <= L /\
    2 ^ 24 * (a * q - L * p) <= a * q /\
    (p < q -> 0 < L -> a < L).
Proof.
  intros HL Hv H0 H1 Hpq.
  destruct (mul_of_int_le L D HL Hv H0 H1) as (a0 & Ha0 & Ha0L & Ha0lt).
  destruct (unit_interval_ratio D Hv H0 H1) as (p' & q' & Hpq' & Hp' & Hq' & Hltb).
  rewrite Hpq in Hpq'. inversion Hpq'; subst p' q'; clear Hpq'.
  assert (Hstrict : p < q -> 0 < L -> a0 < L).
  { intros Hlt HL0. apply Ha0lt; [apply Hltb; exact Hlt | exact HL0]. }
  unfold times_decay.
  destruct (unit_interval_shape D Hv H0 H1)
    as [[s ->] | (my & ey & -> & Hey & Hmy & _)].
  - inversion Hpq; subst p q. exists 0.
    assert (Hz : to_int (mul (of_int L) (S754_zero s)) = Ok 0).
    { destruct (Z.eq_dec L 0) as [-> | HL0]; [reflexivity |].
      destruct (of_int_exact L ltac:(lia)) as (mx & ex & -> & _). reflexivity. }
    split; [exact Hz |].
    rewrite Z.mul_0_r, Z.div_0_l by lia.
    change ((0 + 1 - 1) / 1) with 0.
    repeat split; try lia.
  - cbn [to_ratio] in Hpq.
    assert (Hneg : (0 <=? ey) = false) by (apply Z.leb_gt; lia).
    rewrite Hneg in Hpq. inversion Hpq; subst p q; clear Hpq.
    pose proof (pow2_pos (- ey) ltac:(lia)) as HQ.
    set (Q := 2 ^ (- ey)) in *.
    pose proof (Z.div_mod (L * Zpos my) Q ltac:(lia)) as Hfl.
    pose proof (Z.mod_pos_bound (L * Zpos my) Q HQ) as Hflr.
    pose proof (Z.div_mod (L * Zpos my + Q - 1) Q ltac:(lia)) as Hce.
    pose proof (Z.mod_pos_bound (L * Zpos my + Q - 1) Q HQ) as Hcer.
    set (lo := L * Zpos my / Q) in *.
    set (up := (L * Zpos my + Q - 1) / Q) in *.
    destruct (Z.eq_dec L 0) as [HL0 | HL0].
    { subst L. exists 0. split; [reflexivity |].
      assert (Hlo : lo = 0) by (unfold lo; cbn [Z.mul]; apply Z.div_0_l; lia).
      assert (Hup : 0 <= up) by (unfold up; apply Z.div_pos; lia).
      repeat split; try lia. }
    destruct (of_int_exact L ltac:(lia)) as (mx & ex & Hof & Hex & Hmx).
    rewrite Hof in Ha0 |- *. unfold mul, SFmul in Ha0 |- *. cbn [xorb] in Ha0 |- *.
    pose proof (pow2_pos (- ex) ltac:(lia)) as HPx.
    assert (Hsplit : 2 ^ (- (ex + ey)) = 2 ^ (- ex) * Q).
    { unfold Q. rewrite <- pow2_add by lia. f_equal. lia. }
    assert (Hlo0 : 0 <= lo) by (apply Z.div_pos; lia).
    assert (HupL : up <= L).
    { assert (up < L + 1); [| lia].
      unfold up. apply Z.div_lt_upper_bound; [lia |]. nia. }
    assert (Hup0 : 0 < up) by nia.
    assert (HM : Zpos (mx * my) = L * 2 ^ (- ex) * Zpos my)
      by (rewrite Pos2Z.inj_mul, Hmx; reflexivity).
    destruct (round_exact_le (mx * my) (ex + ey) up ltac:(lia) ltac:(lia))
      as (a & Ha & Hab & Hast).
    { rewrite HM, Hsplit. nia. }
    destruct (round_exact_ge (mx * my) (ex + ey) lo up ltac:(lia) Hlo0 ltac:(lia))
      as (a' & Ha' & Hab').
    { rewrite HM, Hsplit. nia. }
    { rewrite HM, Hsplit. nia. }
    rewrite Ha in Ha'. inversion Ha'; subst a'; clear Ha'.
    exists a. unfold to_int in Ha0 |- *. rewrite Ha in Ha0 |- *.
    rewrite (in_int_small a ltac:(lia)) in Ha0 |- *.
    inversion Ha0; subst a0; clear Ha0.
    split; [reflexivity |]. split; [lia |]. split; [lia |].
    split; [| exact Hstrict].
    destruct (Z_le_gt_dec (2 ^ 24 * (a * Q - L * Zpos my)) (a * Q)) as [Hle | Hgt];
      [exact Hle | exfalso].
    assert (Hlt : a < up).
    { apply Hast. rewrite HM, Hsplit.
      change (2 ^ 24) with 16777216 in *. nia. }
    change (2 ^ 24) with 16777216 in *. nia.
Qed.

(** One more decay keeps the value near the exact product. *)
Lemma near_product_step (S p q L a : Z) (k : nat) :
  0 <= p <= q -> 0 < q -> 0 <= L <= S ->
  L * p / q <= a -> 0 <= a <= L ->
  2 ^ 24 * (a * q - L * p) <= a * q ->
  (p < q -> 0 < L -> a < L) ->
  Geometric.near_product S p q k L ->
  Geometric.near_product S p q (Datatypes.S k) a.
Proof.
  intros Hp Hq HL Hfl Ha Hex Hst (Hlow & Hup & Hpot).
  unfold Geometric.near_product.
  rewrite Nat2Z.inj_succ, !Z.pow_succ_r by lia.
  set (j := Z.of_nat k) in *.
  assert (Hj : 0 <= j) by (unfold j; lia).
  assert (HP : 0 <= p ^ j) by (apply Z.pow_nonneg; lia).
  assert (HQ : 0 < q ^ j) by (apply Z.pow_pos_nonneg; lia).
  set (P := p ^ j) in *. set (Q := q ^ j) in *.
  change (2 ^ 24) with 16777216 in *. change (2 ^ 25) with 33554432 in *.
  assert (Hfloor : L * p <= a * q + q - 1).
  { pose proof (Z.div_mod (L * p) q ltac:(lia)) as Hdm.
    pose proof (Z.mod_pos_bound (L * p) q Hq) as Hmod. nia. }
  set (e := a * q - L * p) in *.
  set (A := L * Q - S * P) in *.
  assert (HA' : a * (q * Q) - S * (p * P) = Q * e + p * A)
    by (unfold e, A; ring).
  rewrite HA'.
  assert (Hscale : forall c B, 0 <= B -> c * A <= B -> c * (p * A) <= q * B).
  { intros c B HB HcA.
    replace (c * (p * A)) with (p * (c * A)) by ring.
    apply Z.le_trans with (p * B).
    - apply Z.mul_le_mono_nonneg_l; lia.
    - apply Z.mul_le_mono_nonneg_r; lia. }
  assert (HB1 : 0 <= j * S * Q).
  { apply Z.mul_nonneg_nonneg; [apply Z.mul_nonneg_nonneg |]; lia. }
  assert (HB2 : 0 <= (S * (S + 1) - L * (L + 1)) * Q).
  { apply Z.mul_nonneg_nonneg; [nia | lia]. }
  pose proof (Hscale 16777216 _ HB1 Hup) as HpA1.
  pose proof (Hscale 33554432 _ HB2 Hpot) as HpA2.
  assert (Hmul : forall x y c, 0 <= c -> x <= y -> c * x <= c * y)
    by (intros; apply Z.mul_le_mono_nonneg_l; assumption).
  split; [| split].
  - (* not more than [k + 1] below *)
    pose proof (Hmul _ _ p ltac:(lia) Hlow) as H1.
    pose proof (Hmul _ _ Q ltac:(lia) Hfloor) as H2.
    assert (H3 : Q * (j * p) <= Q * (j * q)).
    { apply Hmul; [lia |]. apply Z.mul_le_mono_nonneg_l; lia. }
    replace (S * (p * P)) with (p * (S * P)) by ring.
    replace ((a + Z.succ j) * (q * Q))
      with (Q * (a * q + q - 1) + Q * (j * q) + Q) by ring.
    replace (p * ((L + j) * Q)) with (Q * (L * p) + Q * (j * p)) in H1 by ring.
    lia.
  - (* above by at most [(k + 1) * S * 2^-24] *)
    assert (H1 : 16777216 * (Q * e) <= Q * (S * q)).
    { replace (16777216 * (Q * e)) with (Q * (16777216 * e)) by ring.
      apply Hmul; [lia |]. apply Z.le_trans with (a * q); [exact Hex |].
      apply Z.mul_le_mono_nonneg_r; lia. }
    replace (Z.succ j * S * (q * Q)) with (Q * (S * q) + q * (j * S * Q)) by ring.
    lia.
  - (* the values that exceeded their product are all different *)
    assert (Hsq : forall x y, 0 <= x <= y -> x * (x + 1) <= y * (y + 1)).
    { intros x y Hxy. apply Z.mul_le_mono_nonneg; lia. }
    replace ((S * (S + 1) - a * (a + 1)) * (q * Q))
      with (q * ((S * (S + 1) - L * (L + 1)) * Q)
            + Q * ((L * (L + 1) - a * (a + 1)) * q)) by ring.
    assert (H1 : 33554432 * (Q * e) <= Q * ((L * (L + 1) - a * (a + 1)) * q)).
    { replace (33554432 * (Q * e)) with (Q * (33554432 * e)) by ring.
      apply Hmul; [lia |].
      destruct (Z_lt_le_dec 0 e) as [He | He].
      - assert (Hpq : p < q).
        { destruct (Z_lt_le_dec p q) as [Hlt | Hge]; [exact Hlt | exfalso].
          assert (p = q) by lia. subst p.
          assert (a * q <= L * q) by (apply Z.mul_le_mono_nonneg_r; lia).
          unfold e in He. lia. }
        assert (HL0 : 0 < L).
        { destruct (Z.eq_dec L 0) as [-> | Hn]; [| lia].
          assert (a = 0) by lia. subst a. unfold e in He. lia. }
        specialize (Hst Hpq HL0).
        pose proof (Hsq (a + 1) L ltac:(lia)) as Hd.
        apply Z.le_trans with (2 * (a * q)); [lia |].
        replace (2 * (a * q)) with ((2 * a) * q) by ring.
        apply Z.mul_le_mono_nonneg_r; lia.
      - pose proof (Hsq a L ltac:(lia)) as Hd.
        apply Z.le_trans with 0; [lia |].
        apply Z.mul_nonneg_nonneg; lia. }
    lia.
Qed.

End Product.

End Product.

(* ===================================================================== *)
(** * The curriculum across episodes *)
(* ===================================================================== *)

Module Schedule.

Import Float32 Float32_facts Decay Product.

Section Schedule.
Context {E : Elf.Engine}.

Import Elf MixedAI MixedAI_facts Episode.

(** [k] decays keep [_latest_start] near the exact product [S * (p / q)^k]. *)
Lemma latest_start_after_near (S : Z) (D : float) (p q : Z) :
  0 <= S < 2 ^ 24 ->
  valid D = true -> leb zero D = true -> leb D one = true ->
  to_ratio D = Some (p, q) ->
  forall (k : nat) (L : Z),
    Curriculum.latest_start_after D k S = Ok L ->
    0 <= L <= S /\ Geometric.near_product S p q k L.
Proof.
  intros HS Hv H0 H1 Hpq.
  destruct (unit_interval_ratio D Hv H0 H1) as (p' & q' & Hpq' & Hp & Hq & _).
  rewrite Hpq in Hpq'. inversion Hpq'; subst p' q'; clear Hpq'.
  induction k as [| k IH]; intros L HL.
  - cbn [Curriculum.latest_start_after] in HL. inversion HL; subst L.
    split; [lia |]. unfold Geometric.near_product.
    change (Z.of_nat 0) with 0. rewrite !Z.pow_0_r.
    change (2 ^ 24) with 16777216. change (2 ^ 25) with 33554432. lia.
  - cbn [Curriculum.latest_start_after] in HL.
    destruct (Curriculum.latest_start_after D k S) as [n | e | f];
      try discriminate.
    destruct (IH n eq_refl) as (Hn & Hnear).
    destruct (times_decay_product n D p q ltac:(lia) Hv H0 H1 Hpq)
      as (a & Ha & (Hfl & _) & HaL & Hex & Hst).
    rewrite Ha in HL. inversion HL; subst a.
    split; [lia |].
    apply (near_product_step S p q n L k); auto; lia.
Qed.

(** The rounded bound of the specification holds of a value that is near
    enough to the exact product. *)
Lemma near_product_rounded (S p q : Z) (k : nat) (L : Z) :
  0 < q -> 0 <= L <= S ->
  Geometric.near_product S p q k L ->
  S < 2 ^ 12 \/ Z.of_nat k * S <= 2 ^ 23 ->
  L <= (2 * S * p ^ Z.of_nat k + q ^ Z.of_nat k) / (2 * q ^ Z.of_nat k).
Proof.
  intros Hq HL (_ & Hup & Hpot) Hsmall.
  assert (HQ : 0 < q ^ Z.of_nat k) by (apply Z.pow_pos_nonneg; lia).
  set (P := p ^ Z.of_nat k) in *. set (Q := q ^ Z.of_nat k) in *.
  change (2 ^ 24) with 16777216 in *. change (2 ^ 25) with 33554432 in *.
  change (2 ^ 12) with 4096 in *. change (2 ^ 23) with 8388608 in *.
  apply Z.div_le_lower_bound; [lia |].
  assert (H2 : 33554432 * (L * Q - S * P) <= 16777216 * Q); [| lia].
  destruct Hsmall as [HS | HkS].
  - apply Z.le_trans with (1 := Hpot).
    apply Z.mul_le_mono_nonneg_r; [lia |].
    assert (S * (S + 1) <= 4095 * 4096) by (apply Z.mul_le_mono_nonneg; lia).
    assert (0 <= L * (L + 1)) by (apply Z.mul_nonneg_nonneg; lia).
    lia.
  - assert (Z.of_nat k * S * Q <= 8388608 * Q)
      by (apply Z.mul_le_mono_nonneg_r; lia).
    lia.
Qed.



(** C2, as the code has it.  Start from [_latest_start = S] and decay [D],
    with [0 <= S < 2^24] and [D = p / q] a float in [0, 1].  After a run of
    calls holding [k] [GameEnd]s, [_latest_start] is the [k]-th decayed value
    [L <= S] (each decay multiplies in single precision and truncates to an
    integer) and the threshold drawn by the last [GameEnd] lies in [0, L].
    [L] follows the exact product [S * D^k]: it is not more than [k] below
    it and not more than [k * S * 2^-24] above it; and whenever [S < 2^12] or
    [k * S <= 2^23], [L] and the threshold are within the specification's
    bound [round(S * D^k)].  With [D < 1] the bound [L] is at most
    [max 0 (S - k)] (so it is [0] from the [S]-th episode on), and the next
    decay lowers it strictly as long as it is positive. *)
Theorem threshold_within_decayed_start (S : Z) (D : Float32.float)
    (cs : list call) (m m' : object) :
  _latest_start m = S ->
  _latest_start_decay m = D ->
  0 <= S < 2 ^ 24 ->
  Float32.valid D = true ->
  Float32.leb Float32.zero D = true ->
  Float32.leb D Float32.one = true ->
  run cs m = Ok m' ->
  let k := Curriculum.episodes cs in
  let L := _latest_start m' in
  Curriculum.latest_start_after D k S = Ok L /\
  0 <= L <= S /\
  ((1 <= k)%nat -> 0 <= _backup_ai_tick_thres m' <= L) /\
  (exists p q,
     Float32.to_ratio D = Some (p, q) /\ 0 <= p <= q /\ 0 < q /\
     S * p ^ Z.of_nat k <= (L + Z.of_nat k) * q ^ Z.of_nat k /\
     2 ^ 24 * (L * q ^ Z.of_nat k - S * p ^ Z.of_nat k)
       <= Z.of_nat k * S * q ^ Z.of_nat k) /\
  (S < 2 ^ 12 \/ Z.of_nat k * S <= 2 ^ 23 ->
   exists b, Curriculum.spec_bound S D k = Some b /\ L <= b /\
             ((1 <= k)%nat -> 0 <= _backup_ai_tick_thres m' <= b)) /\
  (Float32.ltb D Float32.one = true ->
   L <= Z.max 0 (S - Z.of_nat k) /\
   exists L', times_decay D L = Ok L' /\
              0 <= L' /\ (0 < L -> L' < L)).
Proof.
  intros HS HD HSr Hv H0 H1 Hrun. cbv zeta.
  assert (Hinit : Curriculum.after_episodes S D 0 m).
  { unfold Curriculum.after_episodes. cbn [Curriculum.latest_start_after].
    rewrite HS, HD. repeat split; try lia. }
  pose proof (run_after_episodes S D cs HSr Hv H0 H1 0%nat m m' Hinit Hrun) as Hk.
  cbn [Nat.add] in Hk.
  destruct Hk as (HD' & Hafter & Hrange & Hth & Hdec).
  destruct (unit_interval_ratio D Hv H0 H1) as (p & q & Hpq & Hp & Hq & _).
  destruct (latest_start_after_near S D p q HSr Hv H0 H1 Hpq _ _ Hafter)
    as (_ & Hnear).
  split; [exact Hafter | split; [exact Hrange | split; [exact Hth |]]].
  split; [| split].
  - exists p, q. destruct Hnear as (Hlow & Hup & _). auto.
  - intro Hsmall.
    pose proof (near_product_rounded S p q _ _ Hq Hrange Hnear Hsmall) as Hb.
    unfold Curriculum.spec_bound. rewrite Hpq.
    eexists. split; [reflexivity | split; [exact Hb |]].
    intro H1k. specialize (Hth H1k). lia.
  - intro Hltb. split; [apply Hdec; exact Hltb |].
    destruct (mul_of_int_le (_latest_start m') D ltac:(lia) Hv H0 H1)
      as (L' & HL' & Hr & Hlt).
    exists L'. split; [exact HL' | split; [lia | intro; apply Hlt; assumption]].
Qed.

End Schedule.

End Schedule.

(* ===================================================================== *)
(** * Concrete runs *)
(* ===================================================================== *)

Module Runs.

Import Elf MixedAI.

Local Open Scope string_scope.


Lemma threshold_within_decayed_start_witness :
  (0 <= 10 < 2 ^ 24 /\
   Float32.valid Float32.half = true /\
   Float32.leb Float32.zero Float32.half = true /\
   Float32.leb Float32.half Float32.one = true /\
   @run Demo.engine (Demo.episodes 3) Demo.ready10 = Ok Demo.after3) /\
  (0 <= @_backup_ai_tick_thres Demo.engine Demo.after3
     <= @_latest_start Demo.engine Demo.after3 /\
   @_latest_start Demo.engine Demo.after3 <= 10 /\
   exists b, Curriculum.spec_bound 10 Float32.half 3 = Some b /\
             @_latest_start Demo.engine Demo.after3 <= b /\
             0 <= @_backup_ai_tick_thres Demo.engine Demo.after3 <= b).
Proof.
  assert (H1 : 0 <= 10 < 2 ^ 24) by (vm_compute; split; [discriminate | reflexivity]).
  assert (H2 : Float32.valid Float32.half = true) by (vm_compute; reflexivity).
  assert (H3 : Float32.leb Float32.zero Float32.half = true) by (vm_compute; reflexivity).
  assert (H4 : Float32.leb Float32.half Float32.one = true) by (vm_compute; reflexivity).
  assert (H5 : @run Demo.engine (Demo.episodes 3) Demo.ready10 = Ok Demo.after3)
    by reflexivity.
  assert (H6 : 10 < 2 ^ 12) by reflexivity.
  assert (H7 : (1 <= 3)%nat) by (apply Nat.leb_le; reflexivity).
  split; [auto |].
  destruct (@Schedule.threshold_within_decayed_start Demo.engine 10 Float32.half
              (Demo.episodes 3) Demo.ready10 Demo.after3
              eq_refl eq_refl H1 H2 H3 H4 H5) as (_ & Hr & Hth & _ & Hb & _).
  split; [apply Hth; exact H7 | split; [apply Hr |]].
  destruct (Hb (or_introl H6)) as (b & Hsb & HLb & Hthb).
  exists b. split; [exact Hsb | split; [exact HLb | apply Hthb; exact H7]].
Defined.

Lemma on_act_delegation_witness :
  @on_act Demo.engine 0 0 false Demo.after1
    = @Act_backup Demo.engine 0 0 false Demo.after1 /\
  @on_act Demo.engine 1 0 false Demo.after1
    = @Act_main Demo.engine 1 0 false Demo.after1.
Proof.
  destruct (@Delegation.on_act_delegation Demo.engine 0 0 false Demo.after1)
    as (Hb & _ & _).
  destruct (@Delegation.on_act_delegation Demo.engine 1 0 false Demo.after1)
    as (_ & Hm & _).
  split.
  - destruct (Hb _ eq_refl eq_refl) as [H _]. exact H.
  - assert (Hle : @_backup_ai_tick_thres Demo.engine Demo.after1 <= 1)
      by (change (1 <= 1); apply Z.le_refl).
    destruct (Hm (or_intror Hle)) as [H _]. exact H.
Defined.

Lemma delegation_never_reverts_witness :
  (forallb (fun c => negb (@is_GameEnd Demo.engine c)) Demo.second_episode = true /\
   @run Demo.engine Demo.second_episode Demo.after1 = Ok Demo.after1_acted /\
   1 < 2 /\
   @backup_acts Demo.engine Demo.after1 1 = false) /\
  @backup_acts Demo.engine Demo.after1_acted 2 = false.
Proof.
  assert (H1 : forallb (fun c => negb (@is_GameEnd Demo.engine c)) Demo.second_episode = true)
    by reflexivity.
  assert (H2 : @run Demo.engine Demo.second_episode Demo.after1 = Ok Demo.after1_acted)
    by reflexivity.
  assert (H3 : 1 < 2) by reflexivity.
  assert (H4 : @backup_acts Demo.engine Demo.after1 1 = false) by reflexivity.
  split; [auto |].
  apply (@Delegation.delegation_never_reverts Demo.engine Demo.second_episode
           Demo.after1 Demo.after1_acted 1 2 H1 H2 H3 H4).
Defined.


Lemma on_act_without_main_is_fatal_witness :
  (@_main_ai Demo.engine Demo.fresh10 = None /\
   @backup_acts Demo.engine Demo.fresh10 0 = false) /\
  @on_act Demo.engine 0 0 false Demo.fresh10 = Crash null_dereference.
Proof.
  split; [split; reflexivity |].
  apply (@Delegation.on_act_without_main_is_fatal Demo.engine 0 0 false
           Demo.fresh10 eq_refl eq_refl).
Defined.

Lemma first_episode_delegates_to_main_witness :
  (@MixedAI Demo.engine 7 (Demo.options "start/10|decay/0.5|backup/ai_simple")
     = Ok (Demo.fresh10, []) /\
   forallb (fun c => negb (@is_GameEnd Demo.engine c)) Demo.first_episode = true /\
   @run Demo.engine Demo.first_episode Demo.fresh10 = Ok Demo.fresh10_acted) /\
  (@on_act Demo.engine 2 0 false Demo.fresh10_acted
     = @Act_main Demo.engine 2 0 false Demo.fresh10_acted) /\
  @backup_acts Demo.engine Demo.after1 0 = true.
Proof.
  assert (H1 : @MixedAI Demo.engine 7
                 (Demo.options "start/10|decay/0.5|backup/ai_simple")
               = Ok (Demo.fresh10, [])) by reflexivity.
  assert (H2 : forallb (fun c => negb (@is_GameEnd Demo.engine c)) Demo.first_episode
               = true) by reflexivity.
  assert (H3 : @run Demo.engine Demo.first_episode Demo.fresh10 = Ok Demo.fresh10_acted)
    by reflexivity.
  assert (H4 : 0 <= 2) by discriminate.
  split; [auto | split; [| reflexivity]].
  destruct (@Delegation.first_episode_delegates_to_main Demo.engine 7 _ _ _ _ _
              2 0 false H1 H2 H3) as (_ & Hmain & _).
  destruct (Hmain H4) as [_ H]. exact H.
Defined.

Lemma unknown_backup_value_ignored_witness :
  ((forall v, In ("backup", v) (_parse "start/10|backup/ai_lua|foo/bar") ->
              Curriculum.backup_known v = false) /\
   (forall v, In ("start", v) (_parse "start/10|backup/ai_lua|foo/bar") ->
              returns (Std.stoi v) = true) /\
   (forall v, In ("decay", v) (_parse "start/10|backup/ai_lua|foo/bar") ->
              returns (@stof Demo.engine v) = true)) /\
  exists m out,
    @MixedAI Demo.engine 7 (Demo.options "start/10|backup/ai_lua|foo/bar")
      = Ok (m, out) /\
    _backup_ai m = None /\
    out = ["Unrecognized (key, value) = (foo,bar)"].
Proof.
  assert (Hp : _parse "start/10|backup/ai_lua|foo/bar"
               = [("backup", "ai_lua"); ("foo", "bar"); ("start", "10")])
    by (vm_compute; reflexivity).
  assert (H1 : forall v, In ("backup", v) (_parse "start/10|backup/ai_lua|foo/bar") ->
                         Curriculum.backup_known v = false).
  { intros v H. rewrite Hp in H.
    destruct H as [H | [H | [H | []]]]; inversion H; reflexivity. }
  assert (H2 : forall v, In ("start", v) (_parse "start/10|backup/ai_lua|foo/bar") ->
                         returns (Std.stoi v) = true).
  { intros v H. rewrite Hp in H.
    destruct H as [H | [H | [H | []]]]; inversion H; reflexivity. }
  assert (H3 : forall v, In ("decay", v) (_parse "start/10|backup/ai_lua|foo/bar") ->
                         returns (@stof Demo.engine v) = true).
  { intros v H. rewrite Hp in H.
    destruct H as [H | [H | [H | []]]]; inversion H. }
  split; [auto |].
  destruct (@Construction.unknown_backup_value_ignored Demo.engine 7
              (Demo.options "start/10|backup/ai_lua|foo/bar") H1 H2 H3)
    as ((m & out & Hnew & Hnone & Hout) & _).
  exists m, out. split; [exact Hnew | split; [exact Hnone |]].
  rewrite Hout. cbn [args Demo.options]. rewrite Hp. reflexivity.
Defined.

(** C10 as stated fails: the arguments ["start/x|backup/ai_lua"] hold a
    [backup] entry with an unknown value, and the constructor does not
    return: [std::stoi("x")] throws [std::invalid_argument]. *)
Lemma unknown_backup_bad_start_throws :
  _parse "start/x|backup/ai_lua" = [("backup", "ai_lua"); ("start", "x")] /\
  Curriculum.backup_known "ai_lua" = false /\
  Std.stoi "x" = Raise invalid_argument /\
  @MixedAI Demo.engine 7 (Demo.options "start/x|backup/ai_lua")
    = Raise invalid_argument /\
  ~ (exists m out,
       @MixedAI Demo.engine 7 (Demo.options "start/x|backup/ai_lua") = Ok (m, out)).
Proof.
  assert (H : @MixedAI Demo.engine 7 (Demo.options "start/x|backup/ai_lua")
              = Raise invalid_argument) by reflexivity.
  repeat split; try reflexivity.
  intros (m & out & Hok). rewrite H in Hok. discriminate Hok.
Qed.


(** C9 as stated fails.  The object constructed from
    ["start/10|decay/0.5|backup/ai_simple"] gets its main agent, is bound and
    asked for ticks 0 and 1; no [GameEnd] has been called.  [Act] at tick
    [-1] then goes to the backup agent, whose answer (action [1], the
    [SimpleAI]) is returned, and not to the main agent (action [4], the
    [TrainedAI]). *)
Lemma negative_tick_goes_to_backup :
  @MixedAI Demo.engine 7 (Demo.options "start/10|decay/0.5|backup/ai_simple")
    = Ok (Demo.fresh10, []) /\
  forallb (fun c => negb (@is_GameEnd Demo.engine c)) Demo.first_episode = true /\
  @run Demo.engine Demo.first_episode Demo.fresh10 = Ok Demo.fresh10_acted /\
  @_backup_ai_tick_thres Demo.engine Demo.fresh10_acted = 0 /\
  @backup_acts Demo.engine Demo.fresh10_acted (-1) = true /\
  @on_act Demo.engine (-1) 0 false Demo.fresh10_acted
    = @Act_backup Demo.engine (-1) 0 false Demo.fresh10_acted /\
  (exists m', @on_act Demo.engine (-1) 0 false Demo.fresh10_acted
              = Ok (true, Demo.code SimpleAI, m')) /\
  (exists m', @Act_main Demo.engine (-1) 0 false Demo.fresh10_acted
              = Ok (true, Demo.code TrainedAI, m')) /\
  @on_act Demo.engine (-1) 0 false Demo.fresh10_acted
    <> @Act_main Demo.engine (-1) 0 false Demo.fresh10_acted.
Proof.
  repeat (split; [reflexivity |]).
  split; [eexists; reflexivity |].
  split; [eexists; reflexivity |].
  intro H.
  assert (Ha : forall r : result (bool * @RTSMCAction Demo.engine * @object Demo.engine),
             @on_act Demo.engine (-1) 0 false Demo.fresh10_acted = r ->
             match r with Ok (_, a, _) => a | _ => 0 end = 1).
  { intros r <-. reflexivity. }
  specialize (Ha _ H). revert Ha. cbn. discriminate.
Qed.

(** C2 as stated fails.  With [start = 10] and [decay = 0.5 < 1] the
    bound [int(_latest_start + 0.5)] is [0] after the fourth episode and [0]
    after the fifth: it does not decrease strictly; neither does the
    specification's own [round(S * D^k)], which is [1] for [k = 3] and for
    [k = 4].  With [start = 16000002] and [decay = 0.75] the two products are
    ties that single precision rounds upward, [_latest_start] is [9000002]
    after two episodes, and the threshold drawn is [9000002], above
    [round(S * D^2) = 9000001].  With [start = 65792] and
    [decay = 0.9999847412109375 = 1 - 2^-16] the product is rounded up to an
    integer episode after episode: after 247 episodes [_latest_start] and the
    threshold drawn are [65545], above [round(S * D^247) = 65544]. *)
Lemma decayed_start_counterexample :
  (Float32.ltb Float32.half Float32.one = true /\
   @run Demo.engine (Demo.episodes 4) Demo.ready10 = Ok Demo.after4 /\
   @run Demo.engine (Demo.episodes 5) Demo.ready10 = Ok Demo.after5 /\
   @rounded_latest_start Demo.engine Demo.after4 = 0 /\
   @rounded_latest_start Demo.engine Demo.after5 = 0 /\
   Curriculum.spec_bound 10 Float32.half 3 = Some 1 /\
   Curriculum.spec_bound 10 Float32.half 4 = Some 1) /\
  (@_latest_start Demo.engine Demo.ready_large = 16000002 /\
   @_latest_start_decay Demo.engine Demo.ready_large = Demo.three_quarters /\
   Float32.ltb Demo.three_quarters Float32.one = true /\
   @run Demo.engine (Demo.episodes 2) Demo.ready_large = Ok Demo.after2_large /\
   @_backup_ai_tick_thres Demo.engine Demo.after2_large = 9000002 /\
   Curriculum.spec_bound 16000002 Demo.three_quarters 2 = Some 9000001 /\
   ~ (@_backup_ai_tick_thres Demo.engine Demo.after2_large <= 9000001)) /\
  (Demo.launch 65299 "start/65792|decay/0.9999847412109375" = Ok Demo3.ready_slow /\
   @_latest_start Demo.engine Demo3.ready_slow = 65792 /\
   @_latest_start_decay Demo.engine Demo3.ready_slow = Demo3.slow /\
   Float32.to_ratio Demo3.slow = Some (16776960, 16777216) /\
   Float32.ltb Demo3.slow Float32.one = true /\
   @run Demo.engine (Demo.episodes 247) Demo3.ready_slow = Ok Demo3.after247_slow /\
   @_latest_start Demo.engine Demo3.after247_slow = 65545 /\
   @_backup_ai_tick_thres Demo.engine Demo3.after247_slow = 65545 /\
   Curriculum.spec_bound 65792 Demo3.slow 247 = Some 65544 /\
   ~ (@_backup_ai_tick_thres Demo.engine Demo3.after247_slow <= 65544)).
Proof.
  split; [| split].
  - repeat split; try reflexivity; vm_compute; reflexivity.
  - split; [reflexivity |]. split; [reflexivity |].
    split; [vm_compute; reflexivity |]. split; [reflexivity |].
    split; [reflexivity |]. split; [vm_compute; reflexivity |].
    change (~ (9000002 <= 9000001)). intro H. apply H. reflexivity.
  - split; [reflexivity |]. split; [reflexivity |]. split; [reflexivity |].
    split; [vm_compute; reflexivity |]. split; [vm_compute; reflexivity |].
    split; [reflexivity |]. split; [reflexivity |]. split; [reflexivity |].
    split; [vm_compute; reflexivity |].
    change (~ (65545 <= 65544)). intro H. apply H. reflexivity.
Qed.

End Runs.

(* ===================================================================== *)
(** * More concrete runs *)
(* ===================================================================== *)

Module Runs2.

Import Elf MixedAI.

Local Open Scope string_scope.

Lemma MixedAI_from_lookups_witness :
  @MixedAI Demo.engine 7 (Demo.options "start/10|decay/0.5|backup/ai_simple")
    = Ok (Demo.fresh10, []) /\
  @_latest_start Demo.engine Demo.fresh10 = 10 /\
  option_map class (@_backup_ai Demo.engine Demo.fresh10) = Some SimpleAI.
Proof.
  assert (H : @MixedAI Demo.engine 7
                (Demo.options "start/10|decay/0.5|backup/ai_simple")
              = Ok (Demo.fresh10, [])) by reflexivity.
  split; [exact H |].
  destruct (@Lookups.MixedAI_from_lookups Demo.engine 7 _ _ _ H)
    as (Hs & _ & Hb & _).
  cbv zeta in Hb. split; [reflexivity |]. rewrite Hb. reflexivity.
Defined.

Lemma sub_agents_agree_witness :
  (@MixedAI Demo.engine 7 (Demo.options "start/10|decay/0.5|backup/ai_simple")
     = Ok (Demo.fresh10, []) /\
   @run Demo.engine Demo.first_episode Demo.fresh10 = Ok Demo.fresh10_acted) /\
  @Config.agrees Demo.engine Demo.fresh10_acted (_backup_ai Demo.fresh10_acted) /\
  @Config.agrees Demo.engine Demo.fresh10_acted (_main_ai Demo.fresh10_acted).
Proof.
  assert (H1 : @MixedAI Demo.engine 7
                 (Demo.options "start/10|decay/0.5|backup/ai_simple")
               = Ok (Demo.fresh10, [])) by reflexivity.
  assert (H2 : @run Demo.engine Demo.first_episode Demo.fresh10 = Ok Demo.fresh10_acted)
    by reflexivity.
  split; [auto |].
  apply (@Reachable.sub_agents_agree Demo.engine 7 _ _ _ _ _ H1 H2).
Defined.

Lemma main_agent_comes_first_witness :
  (@MixedAI Demo.engine 7 (Demo.options "start/10|decay/0.5|backup/ai_simple")
     = Ok (Demo.fresh10, []) /\
   @run Demo.engine
     (Demo2.binding_calls
        ++ @call_Act Demo.engine 0 0 false :: [@call_Act Demo.engine 1 0 false])
     Demo.fresh10
     = Ok Demo.fresh10_acted /\
   0 <= 0) /\
  existsb (@Config.is_SetMainAI Demo.engine) Demo2.binding_calls = true.
Proof.
  assert (H1 : @MixedAI Demo.engine 7
                 (Demo.options "start/10|decay/0.5|backup/ai_simple")
               = Ok (Demo.fresh10, [])) by reflexivity.
  assert (H2 : @run Demo.engine
                 (Demo2.binding_calls
                    ++ @call_Act Demo.engine 0 0 false
                       :: [@call_Act Demo.engine 1 0 false]) Demo.fresh10
               = Ok Demo.fresh10_acted) by reflexivity.
  assert (H3 : 0 <= 0) by apply Z.le_refl.
  split; [auto |].
  apply (@Reachable.main_agent_comes_first Demo.engine 7 _ _ _ _ _ _ _ H1 H2).
  right. exists 0. exists 0. exists false. split; [reflexivity | exact H3].
Defined.

Lemma GameEnd_divides_by_zero_witness :
  (@_main_ai Demo.engine Demo2.ready_minus2 = Some Demo.main10 /\
   @times_decay (@_latest_start_decay Demo.engine Demo2.ready_minus2)
                (@_latest_start Demo.engine Demo2.ready_minus2) = Ok (-2)) /\
  @GameEnd Demo.engine 100 Demo2.ready_minus2 = Crash division_by_zero.
Proof.
  assert (H1 : @_main_ai Demo.engine Demo2.ready_minus2 = Some Demo.main10)
    by reflexivity.
  assert (H2 : @times_decay (@_latest_start_decay Demo.engine Demo2.ready_minus2)
                 (@_latest_start Demo.engine Demo2.ready_minus2) = Ok (-2))
    by (vm_compute; reflexivity).
  split; [auto |].
  apply (proj2 (@Decay.GameEnd_divides_by_zero Demo.engine 100 _ _ _ H1 H2)).
  reflexivity.
Defined.

Lemma one_draw_per_episode_witness :
  (@MixedAI Demo.engine 7 (Demo.options "start/10|decay/0.5|backup/ai_simple")
     = Ok (Demo.fresh10, []) /\
   @run Demo.engine Demo2.three_episodes Demo.fresh10 = Ok Demo.after3) /\
  @_rng Demo.engine Demo.after3 = @Config.drawn Demo.engine 3 (mt19937_seed 7).
Proof.
  assert (H1 : @MixedAI Demo.engine 7
                 (Demo.options "start/10|decay/0.5|backup/ai_simple")
               = Ok (Demo.fresh10, [])) by reflexivity.
  assert (H2 : @run Demo.engine Demo2.three_episodes Demo.fresh10 = Ok Demo.after3)
    by reflexivity.
  split; [auto |].
  apply (@Reachable.one_draw_per_episode Demo.engine 7 _ _ _ _ _ H1 H2).
Defined.

Lemma backup_prefix_within_start_witness :
  (@MixedAI Demo.engine 7 (Demo.options "start/10|decay/0.5|backup/ai_simple")
     = Ok (Demo.fresh10, []) /\
   0 <= @_latest_start Demo.engine Demo.fresh10 < 2 ^ 24 /\
   Float32.valid (@_latest_start_decay Demo.engine Demo.fresh10) = true /\
   Float32.leb Float32.zero (@_latest_start_decay Demo.engine Demo.fresh10) = true /\
   Float32.leb (@_latest_start_decay Demo.engine Demo.fresh10) Float32.one = true /\
   @run Demo.engine Demo2.three_episodes Demo.fresh10 = Ok Demo.after3) /\
  0 <= @_backup_ai_tick_thres Demo.engine Demo.after3 <= 10.
Proof.
  assert (H1 : @MixedAI Demo.engine 7
                 (Demo.options "start/10|decay/0.5|backup/ai_simple")
               = Ok (Demo.fresh10, [])) by reflexivity.
  assert (H2 : 0 <= @_latest_start Demo.engine Demo.fresh10 < 2 ^ 24)
    by (change (0 <= 10 < 16777216); split; [discriminate | reflexivity]).
  assert (H3 : Float32.valid (@_latest_start_decay Demo.engine Demo.fresh10) = true)
    by reflexivity.
  assert (H4 : Float32.leb Float32.zero
                 (@_latest_start_decay Demo.engine Demo.fresh10) = true)
    by reflexivity.
  assert (H5 : Float32.leb (@_latest_start_decay Demo.engine Demo.fresh10)
                 Float32.one = true) by (vm_compute; reflexivity).
  assert (H6 : @run Demo.engine Demo2.three_episodes Demo.fresh10 = Ok Demo.after3)
    by reflexivity.
  split; [auto 10 |].
  apply (proj1 (@Reachable.backup_prefix_within_start Demo.engine 7 _ _ _ _ _ 0
                  H1 H2 H3 H4 H5 H6)).
Defined.

Lemma start_without_decay_is_idle_witness :
  (@MixedAI Demo.engine 7 (Demo.options "start/10|backup/ai_simple")
     = Ok (Demo2.fresh_idle, []) /\
   Std.find "decay" (_parse "start/10|backup/ai_simple") = None /\
   0 <= @_latest_start Demo.engine Demo2.fresh_idle < 2 ^ 24 /\
   @run Demo.engine Demo2.idle_run Demo2.fresh_idle = Ok Demo2.idle_after) /\
  @_backup_ai_tick_thres Demo.engine Demo2.idle_after = 0 /\
  @_latest_start Demo.engine Demo2.idle_after = 0.
Proof.
  assert (H1 : @MixedAI Demo.engine 7 (Demo.options "start/10|backup/ai_simple")
               = Ok (Demo2.fresh_idle, [])) by reflexivity.
  assert (H2 : Std.find "decay" (_parse "start/10|backup/ai_simple") = None)
    by (vm_compute; reflexivity).
  assert (H3 : 0 <= @_latest_start Demo.engine Demo2.fresh_idle < 2 ^ 24)
    by (change (0 <= 10 < 16777216); split; [discriminate | reflexivity]).
  assert (H4 : @run Demo.engine Demo2.idle_run Demo2.fresh_idle = Ok Demo2.idle_after)
    by reflexivity.
  split; [auto |].
  destruct (@Decay.start_without_decay_is_idle Demo.engine 7 _ _ _ _ _ H1 H2 H3 H4)
    as (Hth & _ & Hz).
  split; [exact Hth |]. apply Hz. apply Nat.le_refl.
Defined.

Lemma decay_rounds_to_neighbour_witness :
  (0 <= 10 < 2 ^ 24 /\
   Float32.valid Float32.half = true /\
   Float32.leb Float32.zero Float32.half = true /\
   Float32.leb Float32.half Float32.one = true /\
   Float32.to_ratio Float32.half = Some (8388608, 16777216)) /\
  exists a, times_decay Float32.half 10 = Ok a /\ 5 <= a <= 5.
Proof.
  assert (H1 : 0 <= 10 < 2 ^ 24)
    by (change (0 <= 10 < 16777216); split; [discriminate | reflexivity]).
  assert (H2 : Float32.valid Float32.half = true) by reflexivity.
  assert (H3 : Float32.leb Float32.zero Float32.half = true) by reflexivity.
  assert (H4 : Float32.leb Float32.half Float32.one = true) by (vm_compute; reflexivity).
  assert (H5 : Float32.to_ratio Float32.half = Some (8388608, 16777216))
    by (vm_compute; reflexivity).
  split; [auto 10 |].
  destruct (Decay.decay_rounds_to_neighbour 10 Float32.half _ _ H1 H2 H3 H4 H5)
    as (a & Ha & Hr).
  exists a. split; [exact Ha |].
  change (10 * 8388608 / 16777216) with 5 in Hr.
  change ((10 * 8388608 + 16777216 - 1) / 16777216) with 5 in Hr. exact Hr.
Defined.

End Runs2.
